(** * exercise.py: a Redis-backed cache with call counting, call history and replay

    Shallow embedding of [0x02-redis_basic/exercise.py].  The module wraps a
    Redis database: [Cache.store] saves a value under a fresh UUID key,
    [Cache.get] / [get_str] / [get_int] read it back, the decorators
    [count_calls] and [call_history] record every call in Redis itself, and
    [replay] prints the recorded history.

    Layout of the development:
    - Python data: [bytes] are Rocq strings (sequences of 8-bit characters),
      [str] values are lists of Unicode code points, the UTF-8 codec, decimal
      and hexadecimal text, [repr];
    - the Redis server as a finite map with its commands (module [Redis]);
    - a state-and-exception monad over the world (database, standard output,
      entropy), the redis-py client, receivers, the two decorators, the
      [Cache] class and [replay];
    - the properties.

    What the model takes from the environment: the server at
    localhost:6379 answers every command and no other client talks to it
    during a call; redis-py encodes command arguments as its [Encoder]
    does since version 3 (str as strict UTF-8, int and float by [repr],
    bytes as they are, anything else is a [DataError]) and returns raw
    bytes; Python converts between [int] and text without a limit on the
    number of digits; a method that is decorated names its receiver
    [self], as [store] and the two wrappers do. *)

From Stdlib Require Import ZArith NArith Ascii String List Lia.
From stdpp Require Import base option gmap strings list.

Ltac Zify.zify_post_hook ::= Z.to_euclidean_division_equations.

(** ** Outcomes of Python computations *)

(** Redis error replies. *)
Inductive redis_error :=
| WrongType      (* WRONGTYPE Operation against a key holding the wrong kind of value *)
| NotInteger     (* ERR value is not an integer or out of range *)
| Overflow.      (* ERR increment or decrement would overflow *)

(** Python exceptions that the modelled code can raise. *)
Inductive exn :=
| TypeError
| AttributeError
| ValueError
| OverflowError
| UnicodeEncodeError
| UnicodeDecodeError
| DataError                          (* redis.exceptions.DataError *)
| ResponseError (e : redis_error).   (* redis.exceptions.ResponseError *)

Inductive outcome (A : Type) :=
| Ok (a : A)
| Raise (e : exn).
Arguments Ok {A} a.
Arguments Raise {A} e.

Definition of_option {A} (e : exn) (o : option A) : outcome A :=
  match o with Some a => Ok a | None => Raise e end.

#[global] Instance outcome_fmap : FMap outcome := λ A B f m,
  match m with Ok a => Ok (f a) | Raise e => Raise e end.

(** ** Python data *)

(** [bytes]: a sequence of 8-bit characters. *)
Abbreviation bytes := string.

(** [str]: a sequence of Unicode code points, numbers up to 0x10FFFF;
    lone surrogates are allowed in a [str], as in Python. *)
Definition pystr := list N.

(** An ASCII literal of the source, as a [str]. *)
Definition lit (s : string) : pystr := N_of_ascii <$> list_ascii_of_string s.

(** Builtins of the Python runtime that the module relies on but that are
    not defined by it: the float type with its [repr] and parser, the
    remaining conversions of [int()] and [float()], and the Unicode
    database behind [str.isprintable]. *)
Class PyBuiltins := {
  pyfloat : Type;
  float_repr : pyfloat → pystr;              (* repr(x) *)
  float_of_bytes : bytes → outcome pyfloat;  (* float(b) *)
  float_of_str : pystr → outcome pyfloat;    (* float(s) *)
  float_of_int : Z → outcome pyfloat;        (* float(n) *)
  int_of_str : pystr → outcome Z;            (* int(s) *)
  int_of_float : pyfloat → outcome Z;        (* int(x) *)
  isprintable : N → bool;                    (* Py_UNICODE_ISPRINTABLE, used above U+007F *)
}.

(** *** UTF-8 *)

Open Scope N_scope.

(** [chr(c).encode("utf-8")]; [None] stands for UnicodeEncodeError (a
    surrogate, which strict UTF-8 refuses). *)
Definition utf8_encode_cp (c : N) : option bytes :=
  if c <? 0x80 then Some (String (ascii_of_N c) "")
  else if c <? 0x800 then
    Some (String (ascii_of_N (0xC0 + c / 64))
         (String (ascii_of_N (0x80 + c mod 64)) ""))
  else if c <? 0x10000 then
    if (0xD800 <=? c) && (c <=? 0xDFFF) then None
    else Some (String (ascii_of_N (0xE0 + c / 4096))
              (String (ascii_of_N (0x80 + (c / 64) mod 64))
              (String (ascii_of_N (0x80 + c mod 64)) "")))
  else if c <? 0x110000 then
    Some (String (ascii_of_N (0xF0 + c / 262144))
         (String (ascii_of_N (0x80 + (c / 4096) mod 64))
         (String (ascii_of_N (0x80 + (c / 64) mod 64))
         (String (ascii_of_N (0x80 + c mod 64)) ""))))
  else None.

(** [s.encode("utf-8")] *)
Fixpoint utf8_encode (s : pystr) : option bytes :=
  match s with
  | [] => Some ""
  | c :: s' =>
    match utf8_encode_cp c, utf8_encode s' with
    | Some b, Some r => Some (b +:+ r)
    | _, _ => None
    end
  end.

(** A code point is encodable when it is a Unicode scalar value. *)
Definition encodable (c : N) : Prop := is_Some (utf8_encode_cp c).

Definition is_cont (b : N) : bool := (0x80 <=? b) && (b <=? 0xBF).

(** [b.decode("utf-8")], strict: overlong forms, surrogates, code points
    above U+10FFFF and truncated sequences are refused ([None] stands for
    UnicodeDecodeError). *)
Fixpoint utf8_decode (b : bytes) : option pystr :=
  match b with
  | "" => Some []
  | String a0 r0 =>
    let b0 := N_of_ascii a0 in
    if b0 <? 0x80 then cons b0 <$> utf8_decode r0
    else if b0 <? 0xC2 then None
    else if b0 <? 0xE0 then
      match r0 with
      | String a1 r1 =>
        let b1 := N_of_ascii a1 in
        if is_cont b1
        then cons ((b0 - 0xC0) * 64 + (b1 - 0x80)) <$> utf8_decode r1
        else None
      | _ => None
      end
    else if b0 <? 0xF0 then
      match r0 with
      | String a1 (String a2 r2) =>
        let b1 := N_of_ascii a1 in
        let b2 := N_of_ascii a2 in
        if is_cont b1 && is_cont b2
           && negb ((b0 =? 0xE0) && (b1 <? 0xA0))
           && negb ((b0 =? 0xED) && (0x9F <? b1))
        then cons ((b0 - 0xE0) * 4096 + (b1 - 0x80) * 64 + (b2 - 0x80))
               <$> utf8_decode r2
        else None
      | _ => None
      end
    else if b0 <? 0xF5 then
      match r0 with
      | String a1 (String a2 (String a3 r3)) =>
        let b1 := N_of_ascii a1 in
        let b2 := N_of_ascii a2 in
        let b3 := N_of_ascii a3 in
        if is_cont b1 && is_cont b2 && is_cont b3
           && negb ((b0 =? 0xF0) && (b1 <? 0x90))
           && negb ((b0 =? 0xF4) && (0x8F <? b1))
        then cons ((b0 - 0xF0) * 262144 + (b1 - 0x80) * 4096
                   + (b2 - 0x80) * 64 + (b3 - 0x80))
               <$> utf8_decode r3
        else None
      | _ => None
      end
    else None
  end.

(** *** Decimal text *)

Definition digit_char (d : N) : ascii := ascii_of_N (48 + d).

Definition digit_val (a : ascii) : option N :=
  let n := N_of_ascii a in
  if (48 <=? n) && (n <=? 57) then Some (n - 48) else None.

(** The decimal digits of [n], most significant first; [fuel] bounds the
    number of digits. *)
Fixpoint dec_digits (fuel : nat) (n : N) : bytes :=
  match fuel with
  | O => ""
  | S f =>
    (if n / 10 =? 0 then "" else dec_digits f (n / 10))
      +:+ String (digit_char (n mod 10)) ""
  end.

(** The bit length of [n] bounds its number of decimal digits. *)
Definition N_to_dec (n : N) : bytes := dec_digits (S (N.to_nat (N.log2 n))) n.

(** The canonical decimal text of an integer: what [repr] prints for an
    [int] and what Redis stores for a counter. *)
Definition Z_to_dec (z : Z) : bytes :=
  match z with
  | Z0 => "0"
  | Zpos p => N_to_dec (Npos p)
  | Zneg p => String "-" (N_to_dec (Npos p))
  end.

(** Byte strings made of decimal digits only. *)
Fixpoint digits_only (s : bytes) : Prop :=
  match s with
  | "" => True
  | String a r => is_Some (digit_val a) ∧ digits_only r
  end.

Fixpoint only_space (s : bytes) : bool :=
  match s with
  | "" => true
  | String a r => Ascii.is_space a && only_space r
  end.

(** The digit scanner of [int()]: decimal digits, single underscores
    between digits, then optional trailing white space up to the end. *)
Fixpoint scan_digits (s : bytes) (acc : N) (prev_digit : bool) : option N :=
  match s with
  | "" => if prev_digit then Some acc else None
  | String a r =>
    if Ascii.eqb a "_" then
      if prev_digit then scan_digits r acc false else None
    else
      match digit_val a with
      | Some d => scan_digits r (10 * acc + d) true
      | None =>
        if prev_digit && Ascii.is_space a && only_space r
        then Some acc else None
      end
  end.

Fixpoint lstrip (s : bytes) : bytes :=
  match s with
  | "" => ""
  | String a r => if Ascii.is_space a then lstrip r else s
  end.

(** [int(b)] for a [bytes] object in base 10; [None] stands for ValueError. *)
Definition int_of_bytes (b : bytes) : option Z :=
  match lstrip b with
  | String "-" r => (λ n, (- Z.of_N n)%Z) <$> scan_digits r 0 false
  | String "+" r => Z.of_N <$> scan_digits r 0 false
  | s => Z.of_N <$> scan_digits s 0 false
  end.

(** *** Hexadecimal text and UUIDs *)

(** One lower-case hexadecimal digit, as a code point. *)
Definition hexdigit (d : N) : N := if d <? 10 then 48 + d else 87 + d.

(** The [k] low hexadecimal digits of [n], most significant first
    (['%0kx' % n] for [n < 16^k]). *)
Fixpoint hex_digits (k : nat) (n : N) : pystr :=
  match k with
  | O => []
  | S k' => hex_digits k' (n / 16) ++ [hexdigit (n mod 16)]
  end.

(** [uuid.UUID(bytes=..., version=4).int]: the variant bits are set to
    RFC 4122 and the version nibble to 4. *)
Definition uuid4_int (r : N) : N :=
  let i := N.ldiff r (N.shiftl 0xc000 48) in
  let i := N.lor i (N.shiftl 0x8000 48) in
  let i := N.ldiff i (N.shiftl 0xf000 64) in
  N.lor i (N.shiftl 4 76).

(** [str(u)] for a UUID with integer value [i]. *)
Definition uuid_str (i : N) : pystr :=
  let hex := hex_digits 32 i in
  take 8 hex ++ lit "-" ++ take 4 (drop 8 hex) ++ lit "-"
    ++ take 4 (drop 12 hex) ++ lit "-" ++ take 4 (drop 16 hex) ++ lit "-"
    ++ drop 20 hex.

(** A lower-case hexadecimal digit, as a code point. *)
Definition is_hexdigit (c : N) : Prop := (48 ≤ c ≤ 57) ∨ (97 ≤ c ≤ 102).

(** The canonical text of a random UUID (version 4, RFC 4122 variant):
    five groups of 8, 4, 4, 4 and 12 hexadecimal digits joined by hyphens,
    where the third group starts with [4] and the fourth with [8], [9],
    [a] or [b]. *)
Definition is_uuid4_text (s : pystr) : Prop :=
  ∃ a b c d e,
    s = a ++ lit "-" ++ b ++ lit "-" ++ c ++ lit "-" ++ d ++ lit "-" ++ e
    ∧ length a = 8%nat ∧ length b = 4%nat ∧ length c = 4%nat
    ∧ length d = 4%nat ∧ length e = 12%nat
    ∧ Forall is_hexdigit (a ++ b ++ c ++ d ++ e)
    ∧ head c = Some 52
    ∧ ∃ v, head d = Some v ∧ (v = 56 ∨ v = 57 ∨ v = 97 ∨ v = 98).

(** *** repr *)

(** The quote [repr] picks: a double quote when the text has a single
    quote and no double quote, a single quote otherwise. *)
Definition repr_quote (s : list N) : N :=
  if existsb (N.eqb 39) s && negb (existsb (N.eqb 34) s) then 34 else 39.

Definition bytes_codes (b : bytes) : list N :=
  N_of_ascii <$> list_ascii_of_string b.

(** Byte strings made of ASCII characters only. *)
Definition ascii_only (t : bytes) : Prop :=
  Forall (λ c, c < 128) (bytes_codes t).

Definition bytes_repr_char (q c : N) : pystr :=
  if (c =? q) || (c =? 92) then [92; c]
  else if c =? 9 then lit "\t"
  else if c =? 10 then lit "\n"
  else if c =? 13 then lit "\r"
  else if (c <? 32) || (127 <=? c) then lit "\x" ++ hex_digits 2 c
  else [c].

(** [repr(b)] for [bytes] *)
Definition bytes_repr (b : bytes) : pystr :=
  let q := repr_quote (bytes_codes b) in
  lit "b" ++ [q] ++ concat (bytes_repr_char q <$> bytes_codes b) ++ [q].

(** ** The Redis server

    The database behind [redis.Redis()]: one key space whose values are
    either strings or lists, with the commands the module issues. *)
Module Redis.

Inductive value :=
| Str (b : bytes)
| List (l : list bytes).

Inductive reply (A : Type) :=
| Val (a : A)
| Err (e : redis_error).
Arguments Val {A} a.
Arguments Err {A} e.

Definition int64_min : Z := (- 2 ^ 63)%Z.
Definition int64_max : Z := (2 ^ 63 - 1)%Z.

Fixpoint digits_value (s : bytes) (acc : N) : option N :=
  match s with
  | "" => Some acc
  | String a r =>
    match digit_val a with
    | Some d => digits_value r (10 * acc + d)
    | None => None
    end
  end.

(** The integer a string value stands for: only the canonical decimal
    text of a signed 64-bit integer is accepted. *)
Definition string2ll (s : bytes) : option Z :=
  let parsed :=
    match s with
    | String "-" r => (λ n, (- Z.of_N n)%Z) <$> digits_value r 0
    | _ => Z.of_N <$> digits_value s 0
    end in
  match parsed with
  | Some z =>
    if String.eqb (Z_to_dec z) s && (int64_min <=? z)%Z && (z <=? int64_max)%Z
    then Some z else None
  | None => None
  end.

(** SET key value *)
Definition set (k v : bytes) (d : gmap bytes value) : gmap bytes value :=
  <[k := Str v]> d.

(** GET key *)
Definition get (k : bytes) (d : gmap bytes value) : reply (option bytes) :=
  match d !! k with
  | None => Val None
  | Some (Str b) => Val (Some b)
  | Some (List _) => Err WrongType
  end.

(** INCR key: a missing key counts as 0. *)
Definition incr (k : bytes) (d : gmap bytes value)
  : reply Z * gmap bytes value :=
  match d !! k with
  | None => (Val 1%Z, <[k := Str (Z_to_dec 1)]> d)
  | Some (Str b) =>
    match string2ll b with
    | None => (Err NotInteger, d)
    | Some z =>
      if (z <? int64_max)%Z
      then (Val (z + 1)%Z, <[k := Str (Z_to_dec (z + 1))]> d)
      else (Err Overflow, d)
    end
  | Some (List _) => (Err WrongType, d)
  end.

(** RPUSH key value: appends at the tail, creating the list when the key
    is missing; replies with the new length. *)
Definition rpush (k v : bytes) (d : gmap bytes value)
  : reply Z * gmap bytes value :=
  match d !! k with
  | None => (Val 1%Z, <[k := List [v]]> d)
  | Some (List l) =>
    (Val (Z.of_nat (length (l ++ [v]))), <[k := List (l ++ [v])]> d)
  | Some (Str _) => (Err WrongType, d)
  end.

(** The elements of [l] between the inclusive offsets [start] and
    [stop]; negative offsets count from the tail. *)
Definition slice (l : list bytes) (start stop : Z) : list bytes :=
  let llen := Z.of_nat (length l) in
  let start := if (start <? 0)%Z then (llen + start)%Z else start in
  let stop := if (stop <? 0)%Z then (llen + stop)%Z else stop in
  let start := if (start <? 0)%Z then 0%Z else start in
  if (stop <? start)%Z || (llen <=? start)%Z then []
  else
    let stop := if (llen <=? stop)%Z then (llen - 1)%Z else stop in
    take (Z.to_nat (stop - start + 1)) (drop (Z.to_nat start) l).

(** LRANGE key start stop: a missing key is an empty list. *)
Definition lrange (k : bytes) (start stop : Z) (d : gmap bytes value)
  : reply (list bytes) :=
  match d !! k with
  | None => Val []
  | Some (List l) => Val (slice l start stop)
  | Some (Str _) => Err WrongType
  end.

(** FLUSHDB *)
Definition flushdb (d : gmap bytes value) : gmap bytes value := ∅.

(** The integer INCR reads at [k]: 0 for a missing key, nothing when the
    key holds a list or a string that is not an integer. *)
Definition counter (k : bytes) (d : gmap bytes value) : option Z :=
  match d !! k with
  | None => Some 0%Z
  | Some (Str b) => string2ll b
  | Some (List _) => None
  end.

(** The list RPUSH and LRANGE read at [k]: empty for a missing key,
    nothing when the key holds a string. *)
Definition elements (k : bytes) (d : gmap bytes value) : option (list bytes) :=
  match d !! k with
  | None => Some []
  | Some (List l) => Some l
  | Some (Str _) => None
  end.

End Redis.

Section Model.
Context `{PyBuiltins}.

Definition str_repr_char (q c : N) : pystr :=
  if (c =? q) || (c =? 92) then [92; c]
  else if c =? 9 then lit "\t"
  else if c =? 10 then lit "\n"
  else if c =? 13 then lit "\r"
  else if (c <? 32) || (c =? 127) then lit "\x" ++ hex_digits 2 c
  else if c <? 127 then [c]
  else if isprintable c then [c]
  else if c <=? 0xff then lit "\x" ++ hex_digits 2 c
  else if c <=? 0xffff then lit "\u" ++ hex_digits 4 c
  else lit "\U" ++ hex_digits 8 c.

(** [repr(s)] for [str] *)
Definition str_repr (s : pystr) : pystr :=
  let q := repr_quote s in
  [q] ++ concat (str_repr_char q <$> s) ++ [q].

(** Python values that reach the module. *)
#[warnings="-register-all"]
Inductive pyval :=
| PNone
| PInt (z : Z)
| PFloat (f : pyfloat)
| PStr (s : pystr)
| PBytes (b : bytes)
| PTuple (l : list pyval).

Fixpoint join (sep : pystr) (parts : list pystr) : pystr :=
  match parts with
  | [] => []
  | [p] => p
  | p :: ps => p ++ sep ++ join sep ps
  end.

Definition tuple_repr (parts : list pystr) : pystr :=
  match parts with
  | [] => lit "()"
  | [p] => lit "(" ++ p ++ lit ",)"
  | _ => lit "(" ++ join (lit ", ") parts ++ lit ")"
  end.

(** [repr(v)] *)
Fixpoint py_repr (v : pyval) : pystr :=
  match v with
  | PNone => lit "None"
  | PInt z => lit (Z_to_dec z)
  | PFloat f => float_repr f
  | PStr s => str_repr s
  | PBytes b => bytes_repr b
  | PTuple l => tuple_repr (map py_repr l)
  end.

(** [str(v)] *)
Definition py_str (v : pyval) : pystr :=
  match v with
  | PStr s => s
  | _ => py_repr v
  end.

(** [int(v)] *)
Definition py_int (v : pyval) : outcome pyval :=
  match v with
  | PInt z => Ok (PInt z)
  | PBytes b => PInt <$> of_option ValueError (int_of_bytes b)
  | PStr s => PInt <$> int_of_str s
  | PFloat f => PInt <$> int_of_float f
  | PNone | PTuple _ => Raise TypeError
  end.

(** [float(v)] *)
Definition py_float (v : pyval) : outcome pyval :=
  match v with
  | PFloat f => Ok (PFloat f)
  | PBytes b => PFloat <$> float_of_bytes b
  | PStr s => PFloat <$> float_of_str s
  | PInt z => PFloat <$> float_of_int z
  | PNone | PTuple _ => Raise TypeError
  end.

(** [v.decode("utf-8")]: only [bytes] has the method. *)
Definition py_decode_utf8 (v : pyval) : outcome pyval :=
  match v with
  | PBytes b => PStr <$> of_option UnicodeDecodeError (utf8_decode b)
  | _ => Raise AttributeError
  end.

(** ** The world and the monad of Python computations *)

(** What a run can observe and change: the Redis database at
    localhost:6379, the lines printed so far, and the operating system's
    entropy, of which [drawn] 16-byte blocks have been consumed. *)
Record world := World {
  db : gmap bytes Redis.value;
  stdout : list pystr;
  entropy : nat → N;
  drawn : nat;
}.

Definition set_db (d : gmap bytes Redis.value) (w : world) : world :=
  World d (stdout w) (entropy w) (drawn w).

(** A computation runs in a world and ends in a value or an exception;
    the effects performed before an exception stay. *)
Definition M (A : Type) : Type := world → outcome A * world.

#[global] Instance M_ret : MRet M := λ A a w, (Ok a, w).
#[global] Instance M_bind : MBind M := λ A B f m w,
  match m w with
  | (Ok a, w') => f a w'
  | (Raise e, w') => (Raise e, w')
  end.

Definition raise {A} (e : exn) : M A := λ w, (Raise e, w).

Definition lift {A} (o : outcome A) : M A := λ w, (o, w).

(** [print(line)] *)
Definition print (line : pystr) : M unit := λ w,
  (Ok tt, World (db w) (stdout w ++ [line]) (entropy w) (drawn w)).

(** [uuid.uuid4()]: sixteen fresh random bytes, read as a big-endian
    integer. *)
Definition uuid4 : M N := λ w,
  (Ok (uuid4_int (entropy w (drawn w) mod 2 ^ 128)),
   World (db w) (stdout w) (entropy w) (S (drawn w))).

(** ** The redis-py client *)

(** [Encoder.encode]: how a command argument becomes bytes. *)
Definition encode (v : pyval) : outcome bytes :=
  match v with
  | PBytes b => Ok b
  | PInt z => of_option UnicodeEncodeError (utf8_encode (lit (Z_to_dec z)))
  | PFloat f => of_option UnicodeEncodeError (utf8_encode (float_repr f))
  | PStr s => of_option UnicodeEncodeError (utf8_encode s)
  | PNone | PTuple _ => Raise DataError
  end.

(** Run a command on the server and turn an error reply into
    [ResponseError]. *)
Definition command {A} (c : gmap bytes Redis.value → Redis.reply A * gmap bytes Redis.value)
  : M A := λ w,
  match c (db w) with
  | (Redis.Val a, d) => (Ok a, set_db d w)
  | (Redis.Err e, d) => (Raise (ResponseError e), set_db d w)
  end.

Definition client_set (name value : pyval) : M unit :=
  k ← lift (encode name);
  v ← lift (encode value);
  command (λ d, (Redis.Val tt, Redis.set k v d)).

Definition client_get (name : pyval) : M pyval :=
  k ← lift (encode name);
  r ← command (λ d, (Redis.get k d, d));
  mret (match r with Some b => PBytes b | None => PNone end).

Definition client_incr (name : pyval) : M Z :=
  k ← lift (encode name);
  command (Redis.incr k).

Definition client_rpush (name value : pyval) : M Z :=
  k ← lift (encode name);
  v ← lift (encode value);
  command (Redis.rpush k v).

Definition client_lrange (name : pyval) (start stop : Z) : M (list bytes) :=
  k ← lift (encode name);
  command (λ d, (Redis.lrange k start stop d, d)).

Definition client_flushdb : M unit :=
  command (λ d, (Redis.Val tt, Redis.flushdb d)).

(** ** Receivers *)

(** What the attribute [_redis] of an object can hold. *)
Inductive attr_value :=
| RedisClient              (* an instance of redis.Redis *)
| NotRedis (v : pyval).    (* any other value, None included *)

(** The receiver [self] of a method call: whether it is an instance of
    [Cache], and its attribute [_redis] ([None] when the object has no
    such attribute). *)
Record pyobj := {
  is_Cache : bool;
  redis_attr : option attr_value;
}.

(** [self._redis] *)
Definition get_redis (self : pyobj) : M attr_value :=
  lift (of_option AttributeError (redis_attr self)).

(** Calling a client method on the value of [self._redis]: the values
    other than a client have no such method. *)
Definition on_client {A} (r : attr_value) (cmd : M A) : M A :=
  match r with
  | RedisClient => cmd
  | NotRedis _ => raise AttributeError
  end.

Definition isinstance_Redis (r : attr_value) : bool :=
  match r with RedisClient => true | NotRedis _ => false end.

(** [isinstance(self, Cache) and isinstance(self._redis, redis.Redis)] *)
Definition instrumented (self : pyobj) : M bool :=
  if is_Cache self then r ← get_redis self; mret (isinstance_Redis r)
  else mret false.

(** ** Methods and decorators *)

(** Keyword arguments, by name. *)
Definition kwargs := list (pystr * pyval).

(** A function declared with the parameters [(self, ...)], as
    [wrapper(self, *args, **kwargs)] and [store(self, data)] are: its
    [__qualname__] and what it does once the receiver is bound. *)
Record pymethod := {
  qualname : pystr;
  body : pyobj → list pyval → kwargs → M pyval;
}.

(** Whether one of the keyword arguments is named [self]. *)
Definition keyword_self (kw : kwargs) : bool :=
  existsb (λ p, bool_decide (p.1 = lit "self")) kw.

(** The call [method(self, *args, **kwargs)].  The receiver is passed by
    position and bound to the first parameter; a keyword argument named
    [self] gives that parameter a second value, and Python raises
    TypeError while it binds the arguments, before the body runs. *)
Definition call (method : pymethod) (self : pyobj) (args : list pyval)
    (kw : kwargs) : M pyval :=
  if keyword_self kw then raise TypeError else body method self args kw.

(** [count_calls].  The wrapper is declared
    [wrapper(self, *args, **kwargs)]: a call of the decorated method goes
    through [call], which binds the receiver before this body runs.
    [functools.wraps] gives the wrapper the qualified name of the method
    it wraps. *)
Definition count_calls (method : pymethod) : pymethod := {|
  qualname := qualname method;
  body self args kw :=
    b ← instrumented self;
    (if b : bool then
       r ← get_redis self;
       _ ← on_client r (client_incr (PStr (qualname method)));
       mret tt
     else mret tt);;
    call method self args kw
|}.

(** [call_history]; its wrapper has the same parameters and is bound
    in the same way. *)
Definition call_history (method : pymethod) : pymethod := {|
  qualname := qualname method;
  body self args kw :=
    let input := qualname method ++ lit ":inputs" in
    let output := qualname method ++ lit ":outputs" in
    return_value ← call method self args kw;
    b ← instrumented self;
    (if b : bool then
       r ← get_redis self;
       _ ← on_client r (client_rpush (PStr input) (PStr (py_str (PTuple args))));
       r ← get_redis self;
       _ ← on_client r (client_rpush (PStr output) return_value);
       mret tt
     else mret tt);;
    mret return_value
|}.

(** ** replay *)

(** The loop of [replay] over [zip(inputs, outputs)]. *)
Fixpoint replay_lines (name : pystr) (pairs : list (bytes * bytes)) : M unit :=
  match pairs with
  | [] => mret tt
  | (input, output) :: rest =>
    i ← lift (of_option UnicodeDecodeError (utf8_decode input));
    o ← lift (of_option UnicodeDecodeError (utf8_decode output));
    print (name ++ lit "(*" ++ i ++ lit ") -> " ++ o);;
    replay_lines name rest
  end.

(** [replay]; the client it opens talks to the same database. *)
Definition replay (method : pymethod) : M unit :=
  let name := qualname method in
  inputs ← client_lrange (PStr (name ++ lit ":inputs")) 0 (-1);
  outputs ← client_lrange (PStr (name ++ lit ":outputs")) 0 (-1);
  print (name ++ lit " was called "
         ++ lit (Z_to_dec (Z.of_nat (length inputs))) ++ lit " times:");;
  replay_lines name (zip inputs outputs).

End Model.

(** ** The Cache class *)

Module Cache.
Section Methods.
Context `{PyBuiltins}.

(** [Cache.__init__] *)
Definition __init__ : M pyobj :=
  let self := {| is_Cache := true; redis_attr := Some RedisClient |} in
  r ← get_redis self;
  on_client r client_flushdb;;
  mret self.

(** Binding the arguments of a call to the signature [(self, data)]. *)
Definition bind_data (args : list pyval) (kw : kwargs) : outcome pyval :=
  match args, kw with
  | [data], [] => Ok data
  | [], [(k, data)] =>
    if bool_decide (k = lit "data") then Ok data else Raise TypeError
  | _, _ => Raise TypeError
  end.

(** The body of [Cache.store], before decoration. *)
Definition store_body : pymethod := {|
  qualname := lit "Cache.store";
  body self args kw :=
    data ← lift (bind_data args kw);
    u ← uuid4;
    let key := uuid_str u in
    r ← get_redis self;
    on_client r (client_set (PStr key) data);;
    mret (PStr key)
|}.

(** [Cache.store], as decorated in the class body. *)
Definition store : pymethod := count_calls (call_history store_body).

(** [Cache.get] *)
Definition get (self : pyobj) (key : pyval)
    (fn : option (pyval → M pyval)) : M pyval :=
  r ← get_redis self;
  data ← on_client r (client_get key);
  match fn with
  | Some f => f data
  | None => mret data
  end.

(** [Cache.get_str] *)
Definition get_str (self : pyobj) (key : pyval) : M pyval :=
  value ← get self key None;
  match value with
  | PNone => mret PNone
  | _ => lift (py_decode_utf8 value)
  end.

(** [Cache.get_int] *)
Definition get_int (self : pyobj) (key : pyval) : M pyval :=
  value ← get self key None;
  match value with
  | PNone => mret PNone
  | _ => lift (py_int value)
  end.

End Methods.
End Cache.

(** ** Vocabulary of the properties *)

Section Vocabulary.
Context `{PyBuiltins}.

(** The object [Cache()] evaluates to. *)
Definition cache_obj : pyobj :=
  {| is_Cache := true; redis_attr := Some RedisClient |}.

(** A sequence of calls [m(self, *args, **kwargs)], one after the other,
    collecting the results; the first exception ends the run. *)
Fixpoint run_calls (m : pymethod) (self : pyobj)
    (calls : list (list pyval * kwargs)) : M (list pyval) :=
  match calls with
  | [] => mret []
  | (args, kw) :: rest =>
    r ← call m self args kw;
    rs ← run_calls m self rest;
    mret (r :: rs)
  end.

(** The same calls made by a caller that catches every exception and
    goes on: all outcomes are collected. *)
Fixpoint run_attempts (m : pymethod) (self : pyobj)
    (calls : list (list pyval * kwargs)) (w : world)
    : list (outcome pyval) * world :=
  match calls with
  | [] => ([], w)
  | (args, kw) :: rest =>
    let '(r, w1) := call m self args kw w in
    let '(rs, w2) := run_attempts m self rest w1 in
    (r :: rs, w2)
  end.

Definition is_Ok {A} (r : outcome A) : bool :=
  match r with Ok _ => true | Raise _ => false end.

(** The calls that bind to the wrappers: those without a keyword
    argument named [self]. *)
Definition bound_calls (calls : list (list pyval * kwargs))
    : list (list pyval * kwargs) :=
  List.filter (λ c, negb (keyword_self c.2)) calls.

(** The values [Cache.store] is declared for,
    [Union[str, bytes, int, float]], that are valid: a [str] must be
    encodable, that is, free of lone surrogates. *)
Definition storable (v : pyval) : Prop :=
  match v with
  | PStr s => is_Some (utf8_encode s)
  | PBytes _ | PInt _ | PFloat _ => True
  | PNone | PTuple _ => False
  end.

(** The decode function that matches the kind of a stored value:
    [lambda d: d.decode("utf-8")], [int], [float], and none for bytes. *)
Definition decoder (v : pyval) : option (pyval → M pyval) :=
  match v with
  | PStr _ => Some (λ d, lift (py_decode_utf8 d))
  | PInt _ => Some (λ d, lift (py_int d))
  | PFloat _ => Some (λ d, lift (py_float d))
  | _ => None
  end.

(** Python's guarantee on floats: [float(repr(x)) == x], also through
    the bytes of the text. *)
Definition float_repr_roundtrip : Prop :=
  ∀ f, ∃ b, utf8_encode (float_repr f) = Some b ∧ float_of_bytes b = Ok f.

(** The keys that the decorators of [Cache.store] use. *)
Definition counter_key : bytes := "Cache.store".
Definition inputs_key : bytes := "Cache.store:inputs".
Definition outputs_key : bytes := "Cache.store:outputs".

(** The lines [replay] prints: the header for [n] recorded inputs, and
    the line of one pair of entries, when both decode. *)
Definition replay_header (name : pystr) (n : nat) : pystr :=
  name ++ lit " was called " ++ lit (Z_to_dec (Z.of_nat n)) ++ lit " times:".

Definition replay_line (name : pystr) (io : bytes * bytes) : option pystr :=
  i ← utf8_decode io.1;
  o ← utf8_decode io.2;
  Some (name ++ lit "(*" ++ i ++ lit ") -> " ++ o).

(** The line [replay] prints for a call with the positional arguments
    [args] that returned [key]. *)
Definition call_line (name : pystr) (args : list pyval) (key : pyval) : pystr :=
  name ++ lit "(*" ++ py_str (PTuple args) ++ lit ") -> " ++ py_str key.

(** The key that the next call of [store] draws, and the world once it
    is drawn. *)
Definition next_key (w : world) : pystr :=
  uuid_str (uuid4_int (entropy w (drawn w) mod 2 ^ 128)).

Definition drew (w : world) : world :=
  World (db w) (stdout w) (entropy w) (S (drawn w)).

(** The database after a successful [store]: the counter at [c + 1],
    the value [vb] under the key [kb], and one more entry in each log. *)
Definition stored (c : Z) (kb vb ib : bytes) (ins outs : list bytes)
    (d : gmap bytes Redis.value) : gmap bytes Redis.value :=
  <[outputs_key := Redis.List (outs ++ [kb])]>
    (<[inputs_key := Redis.List (ins ++ [ib])]>
      (<[kb := Redis.Str vb]>
        (<[counter_key := Redis.Str (Z_to_dec (c + 1))]> d))).

(** The database after a call of [store] that was counted and stored
    nothing. *)
Definition counted (c : Z) (d : gmap bytes Redis.value) : gmap bytes Redis.value :=
  <[counter_key := Redis.Str (Z_to_dec (c + 1))]> d.

(** The world with another standard output. *)
Definition with_stdout (out : list pystr) (w : world) : world :=
  World (db w) out (entropy w) (drawn w).

(** A database in which the instrumentation of [Cache.store] can run:
    the counter is an integer that can still grow and the two logs are
    lists (or missing). *)
Definition instrumentable (d : gmap bytes Redis.value) : Prop :=
  (∃ c, Redis.counter counter_key d = Some c ∧ (c < Redis.int64_max)%Z)
  ∧ is_Some (Redis.elements inputs_key d)
  ∧ is_Some (Redis.elements outputs_key d).

End Vocabulary.

(** ** A small runtime

    An instance of the builtins with two floats, [0.0] and [1.5], on
    which the model can be evaluated. *)
Inductive tiny_float := F0_0 | F1_5.

#[global] Instance tiny_runtime : PyBuiltins := {|
  pyfloat := tiny_float;
  float_repr f := match f with F0_0 => lit "0.0" | F1_5 => lit "1.5" end;
  float_of_bytes b :=
    if String.eqb b "0.0" then Ok F0_0
    else if String.eqb b "1.5" then Ok F1_5
    else Raise ValueError;
  float_of_str s :=
    match utf8_encode s with
    | Some b =>
      if String.eqb b "0.0" then Ok F0_0
      else if String.eqb b "1.5" then Ok F1_5
      else Raise ValueError
    | None => Raise ValueError
    end;
  float_of_int z := if (z =? 0)%Z then Ok F0_0 else Raise OverflowError;
  int_of_str s := of_option ValueError (utf8_encode s ≫= int_of_bytes);
  int_of_float f := match f with F0_0 => Ok 0%Z | F1_5 => Ok 1%Z end;
  isprintable c := false;
|}.

(** A world with an empty database and a fixed entropy source. *)
Definition sample_world : world :=
  World ∅ [] (λ i, 0x0123456789abcdef0123456789abcdef + N.of_nat i * 0x1000000000000000000000000000) 0.

(** The two calls [store("foo")] and [store(b"bar")]. *)
Definition sample_calls : list (list pyval * kwargs) :=
  [([PStr (lit "foo")], []); ([PBytes "bar"], [])].

(** The keys these two calls draw from the entropy of [sample_world]. *)
Definition sample_key1 : bytes := "01234567-89ab-4def-8123-456789abcdef".
Definition sample_key2 : bytes := "01235567-89ab-4def-8123-456789abcdef".

(** The world after the two calls on a fresh [Cache]. *)
Definition sample_world_after : world :=
  World
    (<[outputs_key := Redis.List [sample_key1; sample_key2]]>
      (<[inputs_key := Redis.List ["('foo',)"; "(b'bar',)"]]>
        (<[sample_key2 := Redis.Str "bar"]>
          (<[sample_key1 := Redis.Str "foo"]>
            (<[counter_key := Redis.Str "2"]> ∅)))))
    [] (entropy sample_world) 2.

(** The world after the first of the two calls alone. *)
Definition sample_world_first : world :=
  World
    (<[outputs_key := Redis.List [sample_key1]]>
      (<[inputs_key := Redis.List ["('foo',)"]]>
        (<[sample_key1 := Redis.Str "foo"]>
          (<[counter_key := Redis.Str "1"]> ∅))))
    [] (entropy sample_world) 1.

(** A world where the counter key of [store] holds a text that is no
    integer. *)
Definition sample_world_stuck : world :=
  World (<[counter_key := Redis.Str "many"]> ∅) [] (entropy sample_world) 0.

(** The keyword arguments of a call [f(..., self=2)]. *)
Definition self_keyword : kwargs := [(lit "self", PInt 2)].

(** Four attempts: a call without a value, the call [store(1, self=2)],
    the call [store("foo")] and the call [store(None)]; and the world
    they leave on a fresh [Cache]. *)
Definition sample_attempts : list (list pyval * kwargs) :=
  [([], []); ([PInt 1], self_keyword); ([PStr (lit "foo")], []);
   ([PNone], [])].

(** What the four attempts return or raise. *)
Definition sample_outcomes : list (outcome pyval) :=
  [Raise TypeError; Raise TypeError; Ok (PStr (lit sample_key1));
   Raise DataError].

Definition sample_world_attempts : world :=
  World
    (<[counter_key := Redis.Str "3"]>
      (<[outputs_key := Redis.List [sample_key1]]>
        (<[inputs_key := Redis.List ["('foo',)"]]>
          (<[sample_key1 := Redis.Str "foo"]> ∅))))
    [] (entropy sample_world) 2.

(** A method that ignores its receiver and returns [None]. *)
Definition returns_None : pymethod :=
  {| qualname := lit "f"; body _ _ _ := mret PNone |}.

(** A method that prints a line and returns [None]. *)
Definition prints_hello : pymethod :=
  {| qualname := lit "h"; body _ _ _ := print (lit "hello");; mret PNone |}.

(** A method that returns one byte that is not UTF-8. *)
Definition returns_byte : pymethod :=
  {| qualname := lit "g"; body _ _ _ := mret (PBytes (String "255"%char "")) |}.

(** The world after one recorded call of [returns_byte]. *)
Definition sample_world_bad : world :=
  World (<["g:outputs" := Redis.List [String "255"%char ""]]>
          (<["g:inputs" := Redis.List ["()"]]> ∅))
        [] (entropy sample_world) 0.

(** A world where another client left a plain string under the key of
    the inputs log. *)
Definition sample_world_clash : world :=
  World (<[inputs_key := Redis.Str "x"]> ∅) [] (entropy sample_world) 0.

(** An instance of [Cache] that lost its [_redis] attribute, and an
    object of another class. *)
Definition cache_without_handle : pyobj :=
  {| is_Cache := true; redis_attr := None |}.

Definition other_obj : pyobj :=
  {| is_Cache := false; redis_attr := None |}.

(** * Properties *)

(** ** Byte strings *)

Lemma append_String a s r : String a s +:+ r = String a (s +:+ r).
Proof. reflexivity. Qed.

Lemma append_Empty r : "" +:+ r = r.
Proof. reflexivity. Qed.

Lemma N_of_ascii_of_N n : n < 256 → N_of_ascii (ascii_of_N n) = n.
Proof. apply N_ascii_embedding. Qed.

Lemma N_of_ascii_lt a : N_of_ascii a < 256.
Proof. apply N_ascii_bounded. Qed.

(** ** UTF-8: decoding inverts encoding *)

Lemma utf8_decode_String a0 r0 :
  utf8_decode (String a0 r0) =
    let b0 := N_of_ascii a0 in
    if b0 <? 0x80 then cons b0 <$> utf8_decode r0
    else if b0 <? 0xC2 then None
    else if b0 <? 0xE0 then
      match r0 with
      | String a1 r1 =>
        let b1 := N_of_ascii a1 in
        if is_cont b1
        then cons ((b0 - 0xC0) * 64 + (b1 - 0x80)) <$> utf8_decode r1
        else None
      | _ => None
      end
    else if b0 <? 0xF0 then
      match r0 with
      | String a1 (String a2 r2) =>
        let b1 := N_of_ascii a1 in
        let b2 := N_of_ascii a2 in
        if is_cont b1 && is_cont b2
           && negb ((b0 =? 0xE0) && (b1 <? 0xA0))
           && negb ((b0 =? 0xED) && (0x9F <? b1))
        then cons ((b0 - 0xE0) * 4096 + (b1 - 0x80) * 64 + (b2 - 0x80))
               <$> utf8_decode r2
        else None
      | _ => None
      end
    else if b0 <? 0xF5 then
      match r0 with
      | String a1 (String a2 (String a3 r3)) =>
        let b1 := N_of_ascii a1 in
        let b2 := N_of_ascii a2 in
        let b3 := N_of_ascii a3 in
        if is_cont b1 && is_cont b2 && is_cont b3
           && negb ((b0 =? 0xF0) && (b1 <? 0x90))
           && negb ((b0 =? 0xF4) && (0x8F <? b1))
        then cons ((b0 - 0xF0) * 262144 + (b1 - 0x80) * 4096
                   + (b2 - 0x80) * 64 + (b3 - 0x80))
               <$> utf8_decode r3
        else None
      | _ => None
      end
    else None.
Proof. reflexivity. Qed.

(** Settle the comparisons of the goal whose outcome follows from the
    hypotheses by linear arithmetic. *)
Ltac decide_cmp :=
  repeat match goal with
  | |- context [?a <? ?b] =>
      first [ replace (a <? b) with true by (symmetry; apply N.ltb_lt; lia)
            | replace (a <? b) with false by (symmetry; apply N.ltb_ge; lia) ]
  | |- context [?a <=? ?b] =>
      first [ replace (a <=? b) with true by (symmetry; apply N.leb_le; lia)
            | replace (a <=? b) with false by (symmetry; apply N.leb_gt; lia) ]
  | |- context [?a =? ?b] =>
      first [ replace (a =? b) with true by (symmetry; apply N.eqb_eq; lia)
            | replace (a =? b) with false by (symmetry; apply N.eqb_neq; lia) ]
  end.

(** Turn boolean comparison facts into arithmetic ones. *)
Ltac cmp_hyps :=
  repeat match goal with
  | H : (_ <? _) = true |- _ => apply N.ltb_lt in H
  | H : (_ <? _) = false |- _ => apply N.ltb_ge in H
  | H : (_ <=? _) = true |- _ => apply N.leb_le in H
  | H : (_ <=? _) = false |- _ => apply N.leb_gt in H
  | H : (_ =? _) = true |- _ => apply N.eqb_eq in H
  | H : (_ =? _) = false |- _ => apply N.eqb_neq in H
  | H : (_ && _) = true |- _ => apply andb_true_iff in H; destruct H
  | H : (_ && _) = false |- _ => apply andb_false_iff in H; destruct H
  | H : (_ || _) = false |- _ => apply orb_false_iff in H; destruct H
  | H : (_ || _) = true |- _ => apply orb_true_iff in H; destruct H
  end.

Lemma utf8_decode_encode_cp c e r :
  utf8_encode_cp c = Some e →
  utf8_decode (e +:+ r) = cons c <$> utf8_decode r.
Proof.
  unfold utf8_encode_cp.
  repeat case_match; intros [= <-]; rewrite ?append_String, ?append_Empty.
  all: cmp_hyps.
  all: rewrite utf8_decode_String; cbv beta iota zeta.
  all: repeat (rewrite N_of_ascii_of_N by lia).
  all: unfold is_cont; decide_cmp; cbn [andb negb].
  all: repeat (match goal with
               | |- context [?a =? ?b] => destruct (N.eqb_spec a b)
               end; decide_cmp; cbn [andb negb]).
  all: f_equal; f_equal; lia.
Qed.

Lemma utf8_decode_encode s b :
  utf8_encode s = Some b → utf8_decode b = Some s.
Proof.
  revert b. induction s as [|c s IH]; intros b; simpl.
  - by intros [= <-].
  - destruct (utf8_encode_cp c) as [e|] eqn:He; [|done].
    destruct (utf8_encode s) as [r|]; [|done].
    intros [= <-]. rewrite (utf8_decode_encode_cp _ _ _ He).
    by rewrite (IH r eq_refl).
Qed.

Lemma utf8_encode_Some s : Forall encodable s ↔ is_Some (utf8_encode s).
Proof.
  induction s as [|c s IH]; simpl.
  - split; [by eexists | constructor].
  - rewrite Forall_cons, IH. unfold encodable.
    destruct (utf8_encode_cp c), (utf8_encode s); split;
      intros; try (by eexists); repeat split; try (by eexists);
      try (by destruct_and?; match goal with H : is_Some None |- _ => destruct H end).
    all: by match goal with H : is_Some None |- _ => destruct H end.
Qed.

Lemma encodable_ascii c : c < 128 → encodable c.
Proof.
  intros Hc. unfold encodable, utf8_encode_cp.
  replace (c <? 128) with true by (symmetry; apply N.ltb_lt; lia).
  by eexists.
Qed.

(** ASCII text is its own encoding, byte for byte. *)
Lemma utf8_encode_ascii s :
  Forall (λ c, c < 128) s →
  utf8_encode s = Some (string_of_list_ascii (ascii_of_N <$> s)).
Proof.
  induction 1 as [|c s Hc _ IH]; [done|].
  simpl. rewrite IH. unfold utf8_encode_cp.
  by replace (c <? 128) with true by (symmetry; apply N.ltb_lt; lia).
Qed.

Lemma length_string_of_list_ascii l :
  String.length (string_of_list_ascii l) = length l.
Proof. induction l; simpl; congruence. Qed.

Lemma utf8_encode_ascii_length s :
  Forall (λ c, c < 128) s →
  ∃ b, utf8_encode s = Some b ∧ String.length b = length s.
Proof.
  intros Hs. eexists. split; [by apply utf8_encode_ascii|].
  by rewrite length_string_of_list_ascii, length_fmap.
Qed.

Lemma utf8_encode_lit t : ascii_only t → utf8_encode (lit t) = Some t.
Proof.
  intros Ht. change (lit t) with (bytes_codes t).
  rewrite utf8_encode_ascii by done. f_equal.
  unfold bytes_codes. rewrite <- list_fmap_compose.
  rewrite <- (string_of_list_ascii_of_string t) at 2. f_equal.
  rewrite <- (list_fmap_id (list_ascii_of_string t)) at 2.
  apply list_fmap_ext. intros _ a _. simpl. apply ascii_N_embedding.
Qed.

Lemma bytes_codes_append s1 s2 :
  bytes_codes (s1 +:+ s2) = bytes_codes s1 ++ bytes_codes s2.
Proof.
  unfold bytes_codes. induction s1 as [|a s1 IH]; [done|].
  rewrite append_String. simpl. f_equal. apply IH.
Qed.

Lemma ascii_only_append s1 s2 :
  ascii_only s1 → ascii_only s2 → ascii_only (s1 +:+ s2).
Proof.
  unfold ascii_only. rewrite bytes_codes_append. apply Forall_app_2.
Qed.

(** ** Decimal text: parsing inverts printing *)

Lemma digit_val_digit_char d : d < 10 → digit_val (digit_char d) = Some d.
Proof.
  intros Hd. unfold digit_val, digit_char.
  rewrite N_of_ascii_of_N by lia. decide_cmp. simpl. f_equal. lia.
Qed.

Lemma digit_val_bounds a d :
  digit_val a = Some d → N_of_ascii a = 48 + d ∧ d < 10.
Proof.
  unfold digit_val. case_match; [|done]. intros [= <-]. cmp_hyps. lia.
Qed.

Lemma dec_digits_S f n :
  dec_digits (S f) n =
    (if n / 10 =? 0 then "" else dec_digits f (n / 10))
      +:+ String (digit_char (n mod 10)) "".
Proof. reflexivity. Qed.

Lemma digits_value_append s1 s2 acc :
  Redis.digits_value (s1 +:+ s2) acc =
    Redis.digits_value s1 acc ≫= Redis.digits_value s2.
Proof.
  revert acc. induction s1 as [|a s1 IH]; intros acc; [done|].
  rewrite append_String. simpl. destruct (digit_val a); [apply IH | done].
Qed.

Lemma dec_digits_value f n :
  n < 2 ^ N.of_nat (S f) →
  ∃ k, ∀ acc,
    Redis.digits_value (dec_digits (S f) n) acc = Some (acc * 10 ^ k + n).
Proof.
  revert n. induction f as [|f IH]; intros n Hn; rewrite dec_digits_S.
  - change (2 ^ N.of_nat 1) with 2 in Hn.
    replace (n / 10 =? 0) with true by (symmetry; apply N.eqb_eq; lia).
    exists 1. intros acc. rewrite append_Empty. simpl.
    rewrite digit_val_digit_char by lia. simpl. f_equal. lia.
  - rewrite Nat2N.inj_succ, N.pow_succ_r' in Hn.
    destruct (N.eqb_spec (n / 10) 0) as [Hz|Hz].
    + exists 1. intros acc. rewrite append_Empty. simpl.
      rewrite digit_val_digit_char by lia. simpl. f_equal. lia.
    + destruct (IH (n / 10)) as [k Hk]; [lia|].
      exists (N.succ k). intros acc.
      rewrite digits_value_append, Hk. simpl.
      rewrite digit_val_digit_char by lia. simpl. f_equal.
      rewrite N.pow_succ_r'. lia.
Qed.

Lemma N_to_dec_value n : Redis.digits_value (N_to_dec n) 0 = Some n.
Proof.
  unfold N_to_dec.
  destruct (dec_digits_value (N.to_nat (N.log2 n)) n) as [k Hk].
  - rewrite Nat2N.inj_succ, N2Nat.id.
    destruct (N.eq_dec n 0) as [->|Hn]; [done|].
    apply N.log2_spec. lia.
  - by rewrite Hk.
Qed.

Lemma digits_only_append s1 s2 :
  digits_only s1 → digits_only s2 → digits_only (s1 +:+ s2).
Proof.
  induction s1 as [|a s1 IH]; [done|].
  rewrite append_String. simpl. intros [Ha Hs1] Hs2. split; auto.
Qed.

Lemma dec_digits_digits_only f n : digits_only (dec_digits f n).
Proof.
  revert n. induction f as [|f IH]; intros n; [done|].
  rewrite dec_digits_S. apply digits_only_append.
  - by destruct (n / 10 =? 0).
  - simpl. split; [|done].
    rewrite digit_val_digit_char; [by eexists|].
    apply N.mod_lt. lia.
Qed.

Lemma dec_digits_nonempty f n : dec_digits (S f) n ≠ "".
Proof.
  rewrite dec_digits_S. destruct (if n / 10 =? 0 then "" else _); discriminate.
Qed.

(** On a run of digits the scanner of [int()] computes the decimal value. *)
Lemma scan_digits_digits_only s acc prev :
  digits_only s → (s ≠ "" ∨ prev = true) →
  scan_digits s acc prev = Redis.digits_value s acc.
Proof.
  revert acc prev. induction s as [|a s IH]; intros acc prev Hs Hne.
  - by destruct Hne as [ | -> ].
  - destruct Hs as [[d Hd] Hs]. simpl. rewrite Hd.
    destruct (digit_val_bounds _ _ Hd) as [Ha Hlt].
    replace (Ascii.eqb a "_") with false.
    + apply IH; auto.
    + symmetry. apply Ascii.eqb_neq. intros ->. simpl in Ha. lia.
Qed.

(** A run of digits starts with neither white space nor a sign. *)
Lemma digits_only_head a r :
  digits_only (String a r) →
  Ascii.is_space a = false ∧ a ≠ "-"%char ∧ a ≠ "+"%char.
Proof.
  intros [[d Hd] _]. destruct (digit_val_bounds _ _ Hd) as [Ha Hlt].
  repeat split.
  - destruct (Ascii.is_space a) eqn:Hsp; [|done].
    unfold Ascii.is_space in Hsp.
    repeat case_match; try done; subst; simpl in Ha; lia.
  - intros ->. simpl in Ha. lia.
  - intros ->. simpl in Ha. lia.
Qed.

Lemma int_of_digits s :
  digits_only s → s ≠ "" →
  int_of_bytes s = Z.of_N <$> Redis.digits_value s 0.
Proof.
  intros Hs Hne. destruct s as [|a r]; [done|].
  destruct (digits_only_head _ _ Hs) as (Hsp & Hm & Hp).
  unfold int_of_bytes. simpl lstrip. rewrite Hsp.
  rewrite <- (scan_digits_digits_only (String a r) 0 false) by auto.
  destruct a as [[] [] [] [] [] [] [] []]; try done.
Qed.

Lemma int_of_bytes_N_to_dec n : int_of_bytes (N_to_dec n) = Some (Z.of_N n).
Proof.
  rewrite int_of_digits.
  - by rewrite N_to_dec_value.
  - apply dec_digits_digits_only.
  - apply dec_digits_nonempty.
Qed.

(** [int(repr(z).encode())] is [z]. *)
Lemma int_of_bytes_Z_to_dec z : int_of_bytes (Z_to_dec z) = Some z.
Proof.
  destruct z as [|p|p]; [done|apply (int_of_bytes_N_to_dec (Npos p))|].
  change (int_of_bytes (Z_to_dec (Z.neg p))) with
    ((λ n, (- Z.of_N n)%Z) <$> scan_digits (N_to_dec (N.pos p)) 0 false).
  rewrite scan_digits_digits_only.
  - by rewrite N_to_dec_value.
  - apply dec_digits_digits_only.
  - left. apply dec_digits_nonempty.
Qed.

(** Redis reads back the counters it prints. *)
Lemma string2ll_Z_to_dec z :
  (Redis.int64_min ≤ z ≤ Redis.int64_max)%Z →
  Redis.string2ll (Z_to_dec z) = Some z.
Proof.
  intros Hz. unfold Redis.string2ll.
  assert ((match Z_to_dec z with
           | String "-" r => (λ n, (- Z.of_N n)%Z) <$> Redis.digits_value r 0
           | _ => Z.of_N <$> Redis.digits_value (Z_to_dec z) 0
           end) = Some z) as ->.
  { destruct z as [|p|p]; [done| |].
    - simpl Z_to_dec.
      pose proof (dec_digits_digits_only (S (N.to_nat (N.log2 (N.pos p)))) (N.pos p)) as Hd.
      pose proof (dec_digits_nonempty (N.to_nat (N.log2 (N.pos p))) (N.pos p)) as Hne.
      fold (N_to_dec (N.pos p)) in Hd, Hne.
      pose proof (N_to_dec_value (N.pos p)) as Hv.
      destruct (N_to_dec (N.pos p)) as [|a r]; [done|].
      destruct (digits_only_head _ _ Hd) as (_ & Hm & _).
      rewrite Hv.
      destruct a as [[] [] [] [] [] [] [] []]; try done.
    - simpl Z_to_dec. cbv beta iota. by rewrite N_to_dec_value. }
  rewrite String.eqb_refl. simpl.
  destruct Hz as [Hlo Hhi].
  apply Z.leb_le in Hlo, Hhi. by rewrite Hlo, Hhi.
Qed.

Lemma digits_only_ascii_only s : digits_only s → ascii_only s.
Proof.
  unfold ascii_only, bytes_codes.
  induction s as [|a s IH]; intros Hs; [constructor|].
  destruct Hs as [[d Hd] Hs]. simpl. constructor; [|by apply IH].
  destruct (digit_val_bounds _ _ Hd). lia.
Qed.

Lemma Z_to_dec_ascii_only z : ascii_only (Z_to_dec z).
Proof.
  destruct z as [|p|p]; simpl.
  - repeat constructor.
  - apply digits_only_ascii_only, dec_digits_digits_only.
  - apply (ascii_only_append "-").
    + repeat constructor.
    + apply digits_only_ascii_only, dec_digits_digits_only.
Qed.

Lemma utf8_encode_Z_to_dec z :
  utf8_encode (lit (Z_to_dec z)) = Some (Z_to_dec z).
Proof. apply utf8_encode_lit, Z_to_dec_ascii_only. Qed.

(** ** UUID keys *)

Lemma length_hex_digits k n : length (hex_digits k n) = k.
Proof.
  revert n. induction k as [|k IH]; intros n; simpl; [done|].
  rewrite length_app, IH. simpl. lia.
Qed.

Lemma hexdigit_ascii d : d < 16 → hexdigit d < 128.
Proof. unfold hexdigit. case_match; lia. Qed.

Lemma hex_digits_ascii k n : Forall (λ c, c < 128) (hex_digits k n).
Proof.
  revert n. induction k as [|k IH]; intros n; simpl; [constructor|].
  apply Forall_app_2; [apply IH|].
  repeat constructor. apply hexdigit_ascii, N.mod_lt. lia.
Qed.

Lemma length_uuid_str i : length (uuid_str i) = 36%nat.
Proof.
  unfold uuid_str.
  rewrite !length_app, !length_take, !length_drop, length_hex_digits.
  reflexivity.
Qed.

Lemma uuid_str_ascii i : Forall (λ c, c < 128) (uuid_str i).
Proof.
  unfold uuid_str.
  repeat first
    [ apply hex_digits_ascii
    | apply Forall_take
    | apply Forall_drop
    | by repeat constructor
    | apply Forall_app_2 ].
Qed.

(** The key of a stored value is 36 bytes long on the wire. *)
Lemma uuid_key i :
  ∃ kb, utf8_encode (uuid_str i) = Some kb ∧ String.length kb = 36%nat.
Proof.
  destruct (utf8_encode_ascii_length (uuid_str i) (uuid_str_ascii i))
    as (kb & Hkb & Hlen).
  exists kb. by rewrite Hlen, length_uuid_str.
Qed.

(** The digits of a key: position by position. *)
Lemma hexdigit_is_hexdigit d : d < 16 → is_hexdigit (hexdigit d).
Proof. unfold hexdigit, is_hexdigit. intros Hd. case_match; cmp_hyps; lia. Qed.

Lemma hex_digits_are_hexdigits k n : Forall is_hexdigit (hex_digits k n).
Proof.
  revert n. induction k as [|k IH]; intros n; simpl; [constructor|].
  apply Forall_app_2; [apply IH|].
  apply Forall_cons_2; [|constructor].
  apply hexdigit_is_hexdigit, N.mod_lt. lia.
Qed.

Lemma hex_digits_lookup k : ∀ n j, (j < k)%nat →
  hex_digits k n !! j = Some (hexdigit ((n / 16 ^ N.of_nat (k - 1 - j)) mod 16)).
Proof.
  unfold pystr.
  induction k as [|k IH]; intros n j Hj; [lia|]. cbn [hex_digits].
  destruct (decide (j = k)) as [->|Hne].
  - rewrite lookup_app_r by (rewrite length_hex_digits; lia).
    rewrite length_hex_digits. replace (k - k)%nat with 0%nat by lia.
    replace (S k - 1 - k)%nat with 0%nat by lia. simpl. by rewrite N.div_1_r.
  - rewrite lookup_app_l by (rewrite length_hex_digits; lia).
    rewrite IH by lia. do 2 f_equal.
    replace (S k - 1 - j)%nat with (S (k - 1 - j)) by lia.
    rewrite Nat2N.inj_succ, N.pow_succ_r', N.Div0.div_div. reflexivity.
Qed.

Lemma nibble_of_bits x n b0 b1 b2 b3 :
  N.testbit x n = b0 → N.testbit x (n + 1) = b1 →
  N.testbit x (n + 2) = b2 → N.testbit x (n + 3) = b3 →
  (x / 2 ^ n) mod 16 = N.b2n b0 + 2 * N.b2n b1 + 4 * N.b2n b2 + 8 * N.b2n b3.
Proof.
  intros <- <- <- <-. rewrite !N.testbit_spec'.
  rewrite !N.pow_add_r. rewrite <- !N.Div0.div_div.
  change (2 ^ 1) with 2. change (2 ^ 2) with 4. change (2 ^ 3) with 8.
  generalize (x / 2 ^ n). intros q. lia.
Qed.

Ltac uuid_bit r :=
  unfold uuid4_int; cbv zeta;
  repeat (rewrite N.lor_spec || rewrite N.ldiff_spec);
  simpl (_ + _);
  match goal with
  | |- context [N.testbit r ?n] => destruct (N.testbit r n)
  end; reflexivity.

Lemma uuid4_int_version r : (uuid4_int r / 16 ^ 19) mod 16 = 4.
Proof.
  change (16 ^ 19) with (2 ^ 76).
  rewrite (nibble_of_bits _ 76 false false true false); [done|..]; uuid_bit r.
Qed.

Lemma uuid4_int_variant r : 8 ≤ (uuid4_int r / 16 ^ 15) mod 16 ≤ 11.
Proof.
  change (16 ^ 15) with (2 ^ 60).
  rewrite (nibble_of_bits _ 60 _ _ false true eq_refl eq_refl);
    [|uuid_bit r..].
  destruct (N.testbit (uuid4_int r) 60), (N.testbit (uuid4_int r) (60 + 1));
    simpl; lia.
Qed.

(** Every key that [uuid4] yields has the canonical shape. *)
Lemma uuid_str_shape r : is_uuid4_text (uuid_str (uuid4_int r)).
Proof.
  unfold uuid_str. cbv zeta.
  set (hex := hex_digits 32 (uuid4_int r)).
  assert (length hex = 32%nat) as Hlen by apply length_hex_digits.
  assert (Forall is_hexdigit hex) as Hhex by apply hex_digits_are_hexdigits.
  eexists _, _, _, _, _. split; [reflexivity|].
  rewrite !length_take, !length_drop, Hlen.
  do 5 (split; [reflexivity|]).
  split; [|split].
  - repeat first [ apply Forall_take | apply Forall_drop | assumption
                 | apply Forall_app_2 ].
  - rewrite head_lookup, lookup_take_lt, lookup_drop by lia.
    subst hex. rewrite hex_digits_lookup by lia.
    change (16 ^ N.of_nat (32 - 1 - (12 + 0))) with (16 ^ 19).
    by rewrite uuid4_int_version.
  - rewrite head_lookup, lookup_take_lt, lookup_drop by lia.
    subst hex. rewrite hex_digits_lookup by lia.
    change (16 ^ N.of_nat (32 - 1 - (16 + 0))) with (16 ^ 15).
    pose proof (uuid4_int_variant r) as Hv.
    eexists. split; [reflexivity|].
    unfold hexdigit. case_match; cmp_hyps; lia.
Qed.

(** ** LRANGE *)

Lemma slice_all l : Redis.slice l 0 (-1) = l.
Proof.
  unfold Redis.slice. cbv zeta.
  repeat match goal with
  | |- context [(?a <? ?b)%Z] => destruct (Z.ltb_spec a b)
  | |- context [(?a <=? ?b)%Z] => destruct (Z.leb_spec a b)
  end; simpl orb; cbv iota; try lia.
  all: try (destruct l; [done | simpl length in *; lia]).
  all: change (Z.to_nat 0) with 0%nat; rewrite drop_0; apply take_ge; lia.
Qed.

Lemma lrange_elements k d :
  Redis.lrange k 0 (-1) d =
    match Redis.elements k d with
    | Some l => Redis.Val l
    | None => Redis.Err WrongType
    end.
Proof.
  unfold Redis.lrange, Redis.elements.
  destruct (d !! k) as [[b|l]|]; try done. by rewrite slice_all.
Qed.

Section Properties.
Context `{PyBuiltins}.

(** ** Running computations *)

Lemma bind_run {A B} (m : M A) (f : A → M B) w :
  (m ≫= f) w =
    match m w with
    | (Ok a, w') => f a w'
    | (Raise e, w') => (Raise e, w')
    end.
Proof. reflexivity. Qed.

Lemma ret_run {A} (a : A) w : (mret a : M A) w = (Ok a, w).
Proof. reflexivity. Qed.

Lemma set_db_same w : set_db (db w) w = w.
Proof. by destruct w. Qed.

Lemma db_set_db d w : db (set_db d w) = d.
Proof. reflexivity. Qed.

Lemma set_db_set_db d d' w : set_db d (set_db d' w) = set_db d w.
Proof. reflexivity. Qed.

(** A receiver the decorators instrument: a [Cache] whose [_redis] is a
    client. *)
Lemma instrumented_cache self w :
  is_Cache self = true → redis_attr self = Some RedisClient →
  instrumented self w = (Ok true, w).
Proof. intros Hc Hr. unfold instrumented, get_redis. by rewrite Hc, Hr. Qed.

Lemma get_redis_client self w :
  redis_attr self = Some RedisClient → get_redis self w = (Ok RedisClient, w).
Proof. intros Hr. unfold get_redis. by rewrite Hr. Qed.

(** Run the guards of a decorator on an instrumented receiver. *)
Ltac run_guard Hc Hr :=
  repeat first
    [ rewrite (instrumented_cache _ _ Hc Hr)
    | rewrite (get_redis_client _ _ Hr)
    | progress cbn [on_client]
    | progress cbv beta iota
    | rewrite bind_run
    | rewrite ret_run ].

(** ** Binding the receiver *)

Lemma call_run m self args kw w :
  call m self args kw w =
    if keyword_self kw then (Raise TypeError, w) else body m self args kw w.
Proof. unfold call. by destruct (keyword_self kw). Qed.

Lemma call_bound m self args kw w :
  keyword_self kw = false → call m self args kw w = body m self args kw w.
Proof. intros Hkw. by rewrite call_run, Hkw. Qed.

Lemma call_unbound m self args kw w :
  keyword_self kw = true → call m self args kw w = (Raise TypeError, w).
Proof. intros Hkw. by rewrite call_run, Hkw. Qed.

(** A call that returned had no keyword named [self]. *)
Lemma call_Ok_bound m self args kw w r w1 :
  call m self args kw w = (Ok r, w1) → keyword_self kw = false.
Proof. rewrite call_run. by destruct (keyword_self kw). Qed.

(** The wrapper of [count_calls] on an instrumented receiver, once the
    call is bound: the increment, then the method. *)
Lemma count_calls_run m self args kw w :
  keyword_self kw = false →
  is_Cache self = true → redis_attr self = Some RedisClient →
  call (count_calls m) self args kw w =
    (client_incr (PStr (qualname m)) ≫= λ _, call m self args kw) w.
Proof.
  intros Hkw Hc Hr. rewrite (call_bound (count_calls m)) by done.
  cbn [count_calls body]. run_guard Hc Hr.
  destruct (client_incr _ w) as [[z|e] w1]; done.
Qed.

(** The wrapper of [call_history] on an instrumented receiver: the
    method, then the two appends.  A call that does not bind to the
    wrapper does not bind to the method either. *)
Lemma call_history_run m self args kw w :
  is_Cache self = true → redis_attr self = Some RedisClient →
  call (call_history m) self args kw w =
    (r ← call m self args kw;
     client_rpush (PStr (qualname m ++ lit ":inputs"))
                  (PStr (py_str (PTuple args)));;
     client_rpush (PStr (qualname m ++ lit ":outputs")) r;;
     mret r) w.
Proof.
  intros Hc Hr. rewrite (call_run (call_history m)).
  destruct (keyword_self kw) eqn:Hkw.
  { by rewrite bind_run, (call_unbound m) by done. }
  cbn [call_history body]. rewrite !bind_run.
  destruct (call m self args kw w) as [[r|e] w1]; [|done].
  run_guard Hc Hr.
  destruct (client_rpush _ _ w1) as [[z|e] w2]; [|done].
  run_guard Hc Hr.
  destruct (client_rpush _ _ w2) as [[z'|e] w3]; done.
Qed.

(** ** Redis commands on well-typed keys *)

Lemma rpush_elements k v d l :
  Redis.elements k d = Some l →
  Redis.rpush k v d =
    (Redis.Val (Z.of_nat (length (l ++ [v]))), <[k := Redis.List (l ++ [v])]> d).
Proof.
  unfold Redis.elements, Redis.rpush.
  destruct (d !! k) as [[b|l']|]; intros [= <-]; done.
Qed.

Lemma rpush_wrong_type k v d :
  Redis.elements k d = None → Redis.rpush k v d = (Redis.Err WrongType, d).
Proof.
  unfold Redis.elements, Redis.rpush. by destruct (d !! k) as [[b|l']|].
Qed.

Lemma incr_counter k d c :
  Redis.counter k d = Some c → (c < Redis.int64_max)%Z →
  Redis.incr k d =
    (Redis.Val (c + 1)%Z, <[k := Redis.Str (Z_to_dec (c + 1))]> d).
Proof.
  unfold Redis.counter, Redis.incr.
  destruct (d !! k) as [[b|l']|]; [| done |by intros [= <-]].
  intros -> Hc. by apply Z.ltb_lt in Hc as ->.
Qed.

(** INCR either fails and leaves the database alone, or moves the
    counter from [c] to [c + 1]. *)
Lemma incr_cases k d :
  (∃ e, Redis.incr k d = (Redis.Err e, d)) ∨
  (∃ c, Redis.counter k d = Some c ∧ (c < Redis.int64_max)%Z ∧
        Redis.incr k d =
          (Redis.Val (c + 1)%Z, <[k := Redis.Str (Z_to_dec (c + 1))]> d)).
Proof.
  unfold Redis.counter, Redis.incr.
  destruct (d !! k) as [[b|l']|]; [|by left; eexists|].
  - destruct (Redis.string2ll b) as [z|]; [|by left; eexists].
    destruct (Z.ltb_spec z Redis.int64_max); [|by left; eexists].
    right. by exists z.
  - right. by exists 0%Z.
Qed.

(** The canonical text is the only one that [string2ll] accepts. *)
Lemma string2ll_Some s z :
  Redis.string2ll s = Some z →
  s = Z_to_dec z ∧ (Redis.int64_min ≤ z ≤ Redis.int64_max)%Z.
Proof.
  unfold Redis.string2ll.
  destruct (match s with String "-" r => _ | _ => _ end) as [z'|]; [|done].
  destruct (String.eqb_spec (Z_to_dec z') s) as [Heq|]; [|done]. simpl.
  destruct (Z.leb_spec Redis.int64_min z'); [|done].
  destruct (Z.leb_spec z' Redis.int64_max); [|done].
  simpl. by intros [= <-].
Qed.

Lemma counter_insert k d c :
  (Redis.int64_min ≤ c ≤ Redis.int64_max)%Z →
  Redis.counter k (<[k := Redis.Str (Z_to_dec c)]> d) = Some c.
Proof.
  intros Hc. unfold Redis.counter.
  rewrite lookup_insert_eq. by apply string2ll_Z_to_dec.
Qed.

Lemma counter_insert_ne k k' v d :
  k' ≠ k → Redis.counter k (<[k' := v]> d) = Redis.counter k d.
Proof. intros Hne. unfold Redis.counter. by rewrite lookup_insert_ne. Qed.

Lemma elements_insert k l d :
  Redis.elements k (<[k := Redis.List l]> d) = Some l.
Proof. unfold Redis.elements. by rewrite lookup_insert_eq. Qed.

Lemma elements_insert_ne k k' v d :
  k' ≠ k → Redis.elements k (<[k' := v]> d) = Redis.elements k d.
Proof. intros Hne. unfold Redis.elements. by rewrite lookup_insert_ne. Qed.

(** ** The client on encodable arguments *)

Lemma command_run {A} (c : gmap bytes Redis.value → Redis.reply A * gmap bytes Redis.value) w :
  command c w =
    match c (db w) with
    | (Redis.Val a, d) => (Ok a, set_db d w)
    | (Redis.Err e, d) => (Raise (ResponseError e), set_db d w)
    end.
Proof. reflexivity. Qed.

Lemma lift_run {A} (o : outcome A) w : lift o w = (o, w).
Proof. reflexivity. Qed.

Lemma client_incr_run name k w :
  encode name = Ok k → client_incr name w = command (Redis.incr k) w.
Proof. intros Hk. unfold client_incr. by rewrite bind_run, lift_run, Hk. Qed.

Lemma client_rpush_run name value k v w :
  encode name = Ok k → encode value = Ok v →
  client_rpush name value w = command (Redis.rpush k v) w.
Proof.
  intros Hk Hv. unfold client_rpush.
  by rewrite !bind_run, !lift_run, Hk, bind_run, lift_run, Hv.
Qed.

Lemma client_get_run name k w :
  encode name = Ok k →
  client_get name w =
    match Redis.get k (db w) with
    | Redis.Val (Some b) => (Ok (PBytes b), w)
    | Redis.Val None => (Ok PNone, w)
    | Redis.Err e => (Raise (ResponseError e), w)
    end.
Proof.
  intros Hk. unfold client_get.
  rewrite !bind_run, !lift_run, Hk, bind_run, command_run.
  destruct (Redis.get k (db w)) as [[b|]|e]; by rewrite ?set_db_same.
Qed.

Lemma client_lrange_run name k w :
  encode name = Ok k →
  client_lrange name 0 (-1) w =
    match Redis.elements k (db w) with
    | Some l => (Ok l, w)
    | None => (Raise (ResponseError WrongType), w)
    end.
Proof.
  intros Hk. unfold client_lrange.
  rewrite !bind_run, !lift_run, Hk, command_run, lrange_elements.
  destruct (Redis.elements k (db w)); by rewrite set_db_same.
Qed.

Lemma encode_PStr s b : utf8_encode s = Some b → encode (PStr s) = Ok b.
Proof. intros Hs. simpl. by rewrite Hs. Qed.

Lemma utf8_encode_inj s1 s2 b :
  utf8_encode s1 = Some b → utf8_encode s2 = Some b → s1 = s2.
Proof.
  intros H1%utf8_decode_encode H2%utf8_decode_encode. congruence.
Qed.

Lemma log_keys_distinct name ik ok :
  utf8_encode (name ++ lit ":inputs") = Some ik →
  utf8_encode (name ++ lit ":outputs") = Some ok →
  ik ≠ ok.
Proof.
  intros Hi Ho ->. pose proof (utf8_encode_inj _ _ _ Hi Ho) as Heq.
  by apply app_inv_head in Heq.
Qed.

(** ** The decorators on any method *)

(** C4. On an instrumented receiver, once the wrapped operation has
    completed with result [r], the history wrapper runs exactly two
    appends, first [str(args)] to ["<qualname>:inputs"], then [r] to
    ["<qualname>:outputs"], and returns [r]; when both appends go through
    the two lists have grown by these entries and nothing else changed.
    The counting wrapper increments the key [<qualname>] itself. *)
Theorem call_history_appends m self args kw w r w1 :
  is_Cache self = true → redis_attr self = Some RedisClient →
  call m self args kw w = (Ok r, w1) →
  call (call_history m) self args kw w =
    (client_rpush (PStr (qualname m ++ lit ":inputs"))
                  (PStr (py_str (PTuple args)));;
     client_rpush (PStr (qualname m ++ lit ":outputs")) r;;
     mret r) w1
  ∧ (∀ ik ok ib ob ins outs,
       utf8_encode (qualname m ++ lit ":inputs") = Some ik →
       utf8_encode (qualname m ++ lit ":outputs") = Some ok →
       utf8_encode (py_str (PTuple args)) = Some ib →
       encode r = Ok ob →
       Redis.elements ik (db w1) = Some ins →
       Redis.elements ok (db w1) = Some outs →
       call (call_history m) self args kw w =
         (Ok r, set_db (<[ok := Redis.List (outs ++ [ob])]>
                          (<[ik := Redis.List (ins ++ [ib])]> (db w1))) w1))
  ∧ (∀ w0, call (count_calls m) self args kw w0 =
       (client_incr (PStr (qualname m));; call m self args kw) w0).
Proof.
  intros Hc Hr Hm. split; [|split].
  - by rewrite call_history_run, bind_run, Hm.
  - intros ik ok ib ob ins outs Hik Hok Hib Hob Hins Houts.
    rewrite call_history_run, bind_run, Hm by done.
    rewrite bind_run.
    rewrite (client_rpush_run _ _ ik ib) by auto using encode_PStr.
    rewrite command_run, (rpush_elements _ _ _ _ Hins).
    rewrite bind_run.
    rewrite (client_rpush_run _ _ ok ob) by auto using encode_PStr.
    rewrite command_run, db_set_db.
    rewrite (rpush_elements _ _ _ outs).
    + by rewrite ret_run, set_db_set_db.
    + rewrite elements_insert_ne; [done|].
      eapply log_keys_distinct; eauto.
  - intros w0. apply count_calls_run; [|done..].
    by apply call_Ok_bound in Hm.
Qed.

(** C5 (amended). When the receiver is not an instance of [Cache], or is
    one whose [_redis] attribute holds something other than a
    [redis.Redis] client ([None] included), both decorators skip their
    side effects silently: the wrapped call is the bare call, with the
    same outcome and the same final world.  When the receiver is a
    [Cache] that has no [_redis] attribute at all, the guard raises
    AttributeError.  In [count_calls] this happens before the wrapped
    operation: the operation does not run and the world is as it was (a
    keyword argument named [self] is refused with TypeError even earlier,
    when the call is bound).  In [call_history] it happens after the
    operation ran and returned: the effects of the operation stay and the
    exception takes the place of its result, while an exception of the
    operation itself passes through. *)
Theorem decorators_skip_unrecognized m self args kw w :
  (is_Cache self = false ∨ (∃ v, redis_attr self = Some (NotRedis v)) →
   call (count_calls m) self args kw w = call m self args kw w
   ∧ call (call_history m) self args kw w = call m self args kw w
   ∧ call (count_calls (call_history m)) self args kw w
     = call m self args kw w)
  ∧ (is_Cache self = true → redis_attr self = None →
     call (count_calls m) self args kw w
       = (Raise (if keyword_self kw then TypeError else AttributeError), w)
     ∧ call (call_history m) self args kw w
       = match call m self args kw w with
         | (Ok _, w1) => (Raise AttributeError, w1)
         | (Raise e, w1) => (Raise e, w1)
         end).
Proof.
  split.
  - intros Hself.
    assert (∀ w', instrumented self w' = (Ok false, w')) as Hi.
    { intros w'. unfold instrumented, get_redis.
      destruct Hself as [->|[v Hv]]; [done|].
      rewrite Hv. by destruct (is_Cache self). }
    assert (∀ m' w', call (count_calls m') self args kw w'
                     = call m' self args kw w') as Hcount.
    { intros m' w'. rewrite (call_run (count_calls m')).
      destruct (keyword_self kw) eqn:Hkw; [by rewrite call_unbound|].
      cbn [count_calls body].
      rewrite bind_run, Hi. cbv beta iota. by rewrite bind_run, ret_run. }
    assert (∀ w', call (call_history m) self args kw w'
                  = call m self args kw w') as Hhist.
    { intros w'. rewrite (call_run (call_history m)).
      destruct (keyword_self kw) eqn:Hkw; [by rewrite call_unbound|].
      cbn [call_history body]. rewrite bind_run.
      destruct (call m self args kw w') as [[r|e] w1]; [|done].
      rewrite bind_run, Hi. cbv beta iota. by rewrite bind_run, !ret_run. }
    by rewrite !Hcount, Hhist.
  - intros Hc Hr.
    assert (∀ w', instrumented self w' = (Raise AttributeError, w')) as Hi.
    { intros w'. unfold instrumented, get_redis. by rewrite Hc, Hr. }
    split.
    + rewrite (call_run (count_calls m)).
      destruct (keyword_self kw); [done|].
      cbn [count_calls body]. by rewrite bind_run, Hi.
    + rewrite (call_run (call_history m)).
      destruct (keyword_self kw) eqn:Hkw; [by rewrite call_unbound|].
      cbn [call_history body]. rewrite bind_run.
      destruct (call m self args kw w) as [[r|e] w1]; [|done].
      by rewrite bind_run, Hi.
Qed.

(** ** Reading values back *)

Lemma Cache_get_run self key k fn w :
  redis_attr self = Some RedisClient → encode key = Ok k →
  Cache.get self key fn w =
    match Redis.get k (db w) with
    | Redis.Val r =>
      let data := match r with Some b => PBytes b | None => PNone end in
      match fn with Some f => f data w | None => (Ok data, w) end
    | Redis.Err e => (Raise (ResponseError e), w)
    end.
Proof.
  intros Hr Hk. unfold Cache.get.
  rewrite bind_run, (get_redis_client _ _ Hr). cbn [on_client].
  rewrite bind_run, (client_get_run _ _ _ Hk).
  destruct (Redis.get k (db w)) as [[b|]|e]; try done; by destruct fn.
Qed.

(** C6. For a key that is missing from the store, [get] without [fn]
    returns [None] and raises nothing, and [get] with [fn] is [fn(None)]:
    the function is applied to the missing value as it is, and what it
    does with it is the outcome. *)
Theorem get_missing_key self key k w :
  redis_attr self = Some RedisClient → encode key = Ok k →
  db w !! k = None →
  Cache.get self key None w = (Ok PNone, w)
  ∧ ∀ fn, Cache.get self key (Some fn) w = fn PNone w.
Proof.
  intros Hr Hk Hmiss.
  assert (Redis.get k (db w) = Redis.Val None) as Hget
    by (unfold Redis.get; by rewrite Hmiss).
  split; [|intros fn]; by rewrite (Cache_get_run _ _ k), Hget.
Qed.

(** C7. When the raw value of a key is missing, [get_str] and [get_int]
    both return [None]: no exception, no decoded default.  When it is the
    byte string [b], [get_str] is [b.decode("utf-8")] and [get_int] is
    [int(b)]; in particular the UTF-8 bytes of a text read back as that
    text and the decimal text of an integer as that integer. *)
Theorem get_str_get_int self key k w :
  redis_attr self = Some RedisClient → encode key = Ok k →
  (db w !! k = None →
     Cache.get_str self key w = (Ok PNone, w)
     ∧ Cache.get_int self key w = (Ok PNone, w))
  ∧ (∀ b, db w !! k = Some (Redis.Str b) →
     Cache.get_str self key w
       = (PStr <$> of_option UnicodeDecodeError (utf8_decode b), w)
     ∧ Cache.get_int self key w
       = (PInt <$> of_option ValueError (int_of_bytes b), w)
     ∧ (∀ s, utf8_encode s = Some b →
          Cache.get_str self key w = (Ok (PStr s), w))
     ∧ (∀ z, b = Z_to_dec z →
          Cache.get_int self key w = (Ok (PInt z), w))).
Proof.
  intros Hr Hk. split.
  - intros Hmiss. unfold Cache.get_str, Cache.get_int.
    rewrite !bind_run, (Cache_get_run _ _ k) by done.
    unfold Redis.get. by rewrite Hmiss.
  - intros b Hb.
    assert (Cache.get_str self key w
            = (PStr <$> of_option UnicodeDecodeError (utf8_decode b), w)) as Hs.
    { unfold Cache.get_str. rewrite !bind_run, (Cache_get_run _ _ k) by done.
      unfold Redis.get. by rewrite Hb. }
    assert (Cache.get_int self key w
            = (PInt <$> of_option ValueError (int_of_bytes b), w)) as Hi.
    { unfold Cache.get_int. rewrite !bind_run, (Cache_get_run _ _ k) by done.
      unfold Redis.get. by rewrite Hb. }
    repeat split; [done|done| |].
    + intros s Henc. by rewrite Hs, (utf8_decode_encode _ _ Henc).
    + intros z ->. by rewrite Hi, int_of_bytes_Z_to_dec.
Qed.

(** ** A new Cache *)

(** What [Cache()] returns and the world it leaves. *)
Lemma fresh_cache w0 self w :
  Cache.__init__ w0 = (Ok self, w) → self = cache_obj ∧ w = set_db ∅ w0.
Proof. by intros [= <- <-]. Qed.

Lemma empty_db_reads k :
  Redis.counter k ∅ = Some 0%Z ∧ Redis.elements k ∅ = Some [].
Proof. unfold Redis.counter, Redis.elements. by rewrite lookup_empty. Qed.

(** C9. [Cache()] empties the whole database: no stored value, no
    counter and no history log survives.  Afterwards [get] returns [None]
    for every key, every counter reads as zero and every log is empty. *)
Theorem Cache_init_clears w :
  ∃ w', Cache.__init__ w = (Ok cache_obj, w')
    ∧ db w' = ∅
    ∧ (∀ key, Cache.get cache_obj key None w'
              = ((λ _, PNone) <$> encode key, w'))
    ∧ (∀ k, Redis.get k (db w') = Redis.Val None
            ∧ Redis.counter k (db w') = Some 0%Z
            ∧ Redis.elements k (db w') = Some []).
Proof.
  exists (set_db ∅ w). repeat split.
  - intros key. unfold Cache.get.
    rewrite bind_run, get_redis_client by done. cbn [on_client].
    unfold client_get. rewrite !bind_run, lift_run.
    destruct (encode key) as [k|e]; [|done].
    rewrite bind_run, command_run. unfold Redis.get. cbn [db set_db].
    by rewrite lookup_empty.
Qed.

(** ** The text of the arguments is encodable *)

Lemma encodable_below_surrogates c : c < 0xD800 → encodable c.
Proof.
  intros Hc. unfold encodable, utf8_encode_cp.
  repeat case_match; cmp_hyps; try (by eexists); lia.
Qed.

Lemma Forall_encodable_ascii s :
  Forall (λ c, c < 128) s → Forall encodable s.
Proof.
  intros Hs. eapply Forall_impl; [exact Hs|].
  intros c Hc. by apply encodable_ascii.
Qed.

Lemma lit_bounded t : Forall (λ c, c < 256) (lit t).
Proof.
  unfold lit. apply Forall_fmap, Forall_forall. intros a _. simpl.
  apply N_of_ascii_lt.
Qed.

Lemma lit_encodable t : Forall encodable (lit t).
Proof.
  eapply Forall_impl; [apply lit_bounded|].
  intros c Hc. simpl in Hc. apply encodable_below_surrogates. lia.
Qed.

Lemma hex_digits_encodable k n : Forall encodable (hex_digits k n).
Proof. apply Forall_encodable_ascii, hex_digits_ascii. Qed.

Lemma repr_quote_encodable s : encodable (repr_quote s).
Proof.
  unfold repr_quote. case_match; by apply encodable_ascii.
Qed.

Ltac encodable_parts :=
  repeat first
    [ apply lit_encodable
    | apply hex_digits_encodable
    | apply Forall_app_2
    | apply Forall_cons_2
    | apply Forall_nil_2
    | apply repr_quote_encodable
    | by apply encodable_ascii
    | assumption ].

Lemma str_repr_char_encodable q c :
  encodable c → Forall encodable (str_repr_char q c).
Proof.
  intros Hc. unfold str_repr_char. repeat case_match; encodable_parts.
Qed.

Lemma str_repr_encodable s :
  Forall encodable s → Forall encodable (str_repr s).
Proof.
  intros Hs. unfold str_repr. encodable_parts.
  apply Forall_concat, Forall_fmap.
  eapply Forall_impl; [exact Hs|]. intros c Hc. simpl.
  by apply str_repr_char_encodable.
Qed.

Lemma bytes_repr_encodable b : Forall encodable (bytes_repr b).
Proof.
  unfold bytes_repr. encodable_parts.
  apply Forall_concat, Forall_fmap.
  eapply Forall_impl; [apply (lit_bounded b)|]. intros c Hc. simpl in *.
  assert (encodable c) by (apply encodable_below_surrogates; lia).
  unfold bytes_repr_char. repeat case_match; encodable_parts.
Qed.

(** The value sent to Redis for a valid argument of [store]. *)
Lemma storable_encode v :
  float_repr_roundtrip → storable v → ∃ vb, encode v = Ok vb.
Proof.
  intros Hfloat Hv. destruct v as [|z|f|s|b|l]; simpl in *; try done.
  - rewrite utf8_encode_Z_to_dec. by eexists.
  - destruct (Hfloat f) as (b & -> & _). by eexists.
  - destruct Hv as [b ->]. by eexists.
  - by eexists.
Qed.

(** The inputs entry of a call [store(v)] with a valid argument. *)
Lemma storable_args_text v :
  float_repr_roundtrip → storable v →
  ∃ ib, utf8_encode (py_str (PTuple [v])) = Some ib.
Proof.
  intros Hfloat Hv. apply utf8_encode_Some.
  cbn [py_str py_repr map tuple_repr]. encodable_parts.
  destruct v as [|z|f|s|b|l]; simpl in Hv; try done; cbn [py_repr].
  - apply utf8_encode_Some. rewrite utf8_encode_Z_to_dec. by eexists.
  - apply utf8_encode_Some. destruct (Hfloat f) as (b & -> & _). by eexists.
  - by apply str_repr_encodable, utf8_encode_Some.
  - apply bytes_repr_encodable.
Qed.

(** ** Cache.store, step by step *)

Lemma counter_key_enc : encode (PStr (qualname Cache.store)) = Ok counter_key.
Proof. reflexivity. Qed.

Lemma inputs_key_enc :
  utf8_encode (qualname Cache.store_body ++ lit ":inputs") = Some inputs_key.
Proof. reflexivity. Qed.

Lemma outputs_key_enc :
  utf8_encode (qualname Cache.store_body ++ lit ":outputs") = Some outputs_key.
Proof. reflexivity. Qed.

(** A UUID key differs from the three keys of the instrumentation. *)
Lemma uuid_key_fresh kb :
  String.length kb = 36%nat →
  kb ≠ counter_key ∧ kb ≠ inputs_key ∧ kb ≠ outputs_key.
Proof. intros Hlen. repeat split; intros ->; discriminate Hlen. Qed.

(** Binding the arguments of [store] fails with TypeError only, and it
    fails when a keyword is named [self]. *)
Lemma bind_data_TypeError args kw e :
  Cache.bind_data args kw = Raise e → e = TypeError.
Proof.
  unfold Cache.bind_data.
  destruct args as [|a [|a' args]], kw as [|[k v] [|p kw]]; try by intros [= <-].
  case_bool_decide; [done|by intros [= <-]].
Qed.

Lemma bind_data_keyword_self args kw :
  keyword_self kw = true → Cache.bind_data args kw = Raise TypeError.
Proof.
  unfold Cache.bind_data, keyword_self.
  destruct args as [|a [|a' args]], kw as [|[k v] [|p kw]]; try done.
  cbn [existsb fst]. rewrite orb_false_r.
  intros ->%bool_decide_eq_true. by rewrite bool_decide_eq_false_2.
Qed.

Lemma bind_data_bound args kw data :
  Cache.bind_data args kw = Ok data → keyword_self kw = false.
Proof.
  intros Hdata. destruct (keyword_self kw) eqn:Hkw; [|done].
  by rewrite bind_data_keyword_self in Hdata.
Qed.

Lemma store_body_run args kw w kb :
  utf8_encode (next_key w) = Some kb →
  call Cache.store_body cache_obj args kw w =
    match Cache.bind_data args kw with
    | Raise e => (Raise e, w)
    | Ok data =>
      match encode data with
      | Raise e => (Raise e, drew w)
      | Ok vb =>
        (Ok (PStr (next_key w)),
         set_db (<[kb := Redis.Str vb]> (db w)) (drew w))
      end
    end.
Proof.
  intros Hkb. rewrite call_run.
  destruct (keyword_self kw) eqn:Hkw.
  { by rewrite bind_data_keyword_self. }
  unfold Cache.store_body. cbn [body].
  rewrite bind_run, lift_run.
  destruct (Cache.bind_data args kw) as [data|e]; [|done].
  rewrite bind_run. unfold uuid4 at 1. fold (next_key w). fold (drew w).
  rewrite bind_run, get_redis_client by done. cbn [on_client].
  rewrite bind_run. unfold client_set.
  rewrite bind_run, lift_run, (encode_PStr _ _ Hkb), bind_run, lift_run.
  destruct (encode data) as [vb|e]; [|done].
  by rewrite command_run, ret_run.
Qed.

(** The whole of [Cache.store] on a [Cache()] object, as the commands
    that reach the server. *)
Lemma Cache_store_run args kw w kb :
  keyword_self kw = false →
  utf8_encode (next_key w) = Some kb →
  call Cache.store cache_obj args kw w =
    match Redis.incr counter_key (db w) with
    | (Redis.Err e, d) => (Raise (ResponseError e), set_db d w)
    | (Redis.Val _, d1) =>
      match Cache.bind_data args kw with
      | Raise e => (Raise e, set_db d1 w)
      | Ok data =>
        match encode data with
        | Raise e => (Raise e, set_db d1 (drew w))
        | Ok vb =>
          let d2 := <[kb := Redis.Str vb]> d1 in
          match utf8_encode (py_str (PTuple args)) with
          | None => (Raise UnicodeEncodeError, set_db d2 (drew w))
          | Some ib =>
            match Redis.rpush inputs_key ib d2 with
            | (Redis.Err e, d) => (Raise (ResponseError e), set_db d (drew w))
            | (Redis.Val _, d3) =>
              match Redis.rpush outputs_key kb d3 with
              | (Redis.Err e, d) => (Raise (ResponseError e), set_db d (drew w))
              | (Redis.Val _, d4) => (Ok (PStr (next_key w)), set_db d4 (drew w))
              end
            end
          end
        end
      end
    end.
Proof.
  intros Hkw Hkb. unfold Cache.store.
  rewrite count_calls_run, bind_run by done.
  rewrite (client_incr_run _ _ _ counter_key_enc), command_run.
  destruct (Redis.incr counter_key (db w)) as [[z|e] d1]; [|done].
  rewrite call_history_run, bind_run by done.
  rewrite (store_body_run _ _ _ kb) by done.
  destruct (Cache.bind_data args kw) as [data|e]; [|done].
  destruct (encode data) as [vb|e]; [|done].
  cbn [qualname]. rewrite bind_run.
  unfold client_rpush at 1.
  rewrite bind_run, lift_run, (encode_PStr _ _ inputs_key_enc).
  rewrite bind_run, lift_run. cbn [encode].
  destruct (utf8_encode (py_str (PTuple args))) as [ib|]; [|done].
  cbn [of_option]. rewrite command_run. cbn [db set_db drew].
  destruct (Redis.rpush inputs_key ib _) as [[n|e] d3]; [|done].
  rewrite bind_run.
  rewrite (client_rpush_run _ _ outputs_key kb)
    by auto using encode_PStr, outputs_key_enc.
  rewrite command_run. cbn [db set_db].
  destruct (Redis.rpush outputs_key kb d3) as [[n'|e] d4]; done.
Qed.

Lemma keys_distinct :
  counter_key ≠ inputs_key ∧ counter_key ≠ outputs_key
  ∧ inputs_key ≠ outputs_key.
Proof. repeat split; discriminate. Qed.

(** When every step goes through, [store] returns the drawn key and
    leaves the database [stored]. *)
Lemma Cache_store_success args kw w c data kb vb ib ins outs :
  Redis.counter counter_key (db w) = Some c → (c < Redis.int64_max)%Z →
  Cache.bind_data args kw = Ok data →
  utf8_encode (next_key w) = Some kb → String.length kb = 36%nat →
  encode data = Ok vb →
  utf8_encode (py_str (PTuple args)) = Some ib →
  Redis.elements inputs_key (db w) = Some ins →
  Redis.elements outputs_key (db w) = Some outs →
  call Cache.store cache_obj args kw w =
    (Ok (PStr (next_key w)),
     set_db (stored c kb vb ib ins outs (db w)) (drew w)).
Proof.
  intros Hc Hlt Hdata Hkb Hlen Hvb Hib Hins Houts.
  pose proof (bind_data_bound _ _ _ Hdata) as Hkw.
  destruct (uuid_key_fresh kb Hlen) as (Hk1 & Hk2 & Hk3).
  destruct keys_distinct as (Hd1 & Hd2 & Hd3).
  rewrite (Cache_store_run _ _ _ kb Hkw Hkb).
  rewrite (incr_counter _ _ _ Hc Hlt), Hdata, Hvb. cbv zeta. rewrite Hib.
  rewrite (rpush_elements _ _ _ ins)
    by (by rewrite !elements_insert_ne).
  rewrite (rpush_elements _ _ _ outs)
    by (by rewrite !elements_insert_ne).
  reflexivity.
Qed.

(** Conversely, a call of [store] that returned went through every step. *)
Lemma Cache_store_ok args kw w r w' :
  call Cache.store cache_obj args kw w = (Ok r, w') →
  ∃ c data kb vb ib ins outs,
    Redis.counter counter_key (db w) = Some c ∧ (c < Redis.int64_max)%Z
    ∧ Cache.bind_data args kw = Ok data
    ∧ utf8_encode (next_key w) = Some kb ∧ String.length kb = 36%nat
    ∧ encode data = Ok vb
    ∧ utf8_encode (py_str (PTuple args)) = Some ib
    ∧ Redis.elements inputs_key (db w) = Some ins
    ∧ Redis.elements outputs_key (db w) = Some outs
    ∧ r = PStr (next_key w)
    ∧ w' = set_db (stored c kb vb ib ins outs (db w)) (drew w).
Proof.
  intros Hcall. pose proof (call_Ok_bound _ _ _ _ _ _ _ Hcall) as Hkw.
  revert Hcall.
  destruct (uuid_key (uuid4_int (entropy w (drawn w) mod 2 ^ 128)))
    as (kb & Hkb & Hlen).
  fold (next_key w) in Hkb.
  destruct (uuid_key_fresh kb Hlen) as (Hk1 & Hk2 & Hk3).
  destruct keys_distinct as (Hd1 & Hd2 & Hd3).
  rewrite (Cache_store_run _ _ _ kb Hkw Hkb).
  destruct (incr_cases counter_key (db w)) as [[e ->]|(c & Hc & Hlt & ->)];
    [done|].
  destruct (Cache.bind_data args kw) as [data|e] eqn:Hdata; [|done].
  destruct (encode data) as [vb|e] eqn:Hvb; [|done]. cbv zeta.
  destruct (utf8_encode (py_str (PTuple args))) as [ib|] eqn:Hib; [|done].
  destruct (Redis.elements inputs_key (db w)) as [ins|] eqn:Hins.
  2: { rewrite rpush_wrong_type by (by rewrite !elements_insert_ne). done. }
  rewrite (rpush_elements _ _ _ ins) by (by rewrite !elements_insert_ne).
  destruct (Redis.elements outputs_key (db w)) as [outs|] eqn:Houts.
  2: { rewrite rpush_wrong_type by (by rewrite !elements_insert_ne). done. }
  rewrite (rpush_elements _ _ _ outs) by (by rewrite !elements_insert_ne).
  intros [= <- <-].
  exists c, data, kb, vb, ib, ins, outs. repeat split; done.
Qed.

Lemma counter_range k d c :
  Redis.counter k d = Some c →
  (Redis.int64_min ≤ c ≤ Redis.int64_max)%Z.
Proof.
  unfold Redis.counter. destruct (d !! k) as [[b|l]|]; [|done|].
  - by intros (_ & ?)%string2ll_Some.
  - intros [= <-]. done.
Qed.

(** What the three keys and the value key hold in a [stored] database. *)
Lemma stored_lookups c kb vb ib ins outs d :
  String.length kb = 36%nat →
  (Redis.int64_min ≤ c + 1 ≤ Redis.int64_max)%Z →
  Redis.counter counter_key (stored c kb vb ib ins outs d) = Some (c + 1)%Z
  ∧ Redis.elements inputs_key (stored c kb vb ib ins outs d) = Some (ins ++ [ib])
  ∧ Redis.elements outputs_key (stored c kb vb ib ins outs d) = Some (outs ++ [kb])
  ∧ stored c kb vb ib ins outs d !! kb = Some (Redis.Str vb).
Proof.
  intros Hlen Hc.
  destruct (uuid_key_fresh kb Hlen) as (Hk1 & Hk2 & Hk3).
  destruct keys_distinct as (Hd1 & Hd2 & Hd3).
  unfold stored. repeat split.
  - rewrite !counter_insert_ne by done. by apply counter_insert.
  - rewrite elements_insert_ne by done. apply elements_insert.
  - apply elements_insert.
  - rewrite !lookup_insert_ne by done. apply lookup_insert_eq.
Qed.

Lemma empty_instrumentable d : d = ∅ → instrumentable d.
Proof.
  intros ->. unfold instrumentable, Redis.counter, Redis.elements.
  rewrite !lookup_empty. split; [|split]; [|by eexists..].
  exists 0%Z. by split.
Qed.

(** ** Storing and reading back *)

(** C1. Round trip.  On a database where the instrumentation can run (a
    fresh one, for instance), [store(v)] for a valid [v] of a supported
    kind returns a key, and reading that key back with the decode function
    that matches the kind yields [v]: [get(key, fn)] with
    [lambda d: d.decode("utf-8")], [int] or [float], or [get(key)] for
    bytes; likewise [get_str] for a [str] and [get_int] for an [int]. *)
Theorem store_get_roundtrip w v :
  float_repr_roundtrip → instrumentable (db w) → storable v →
  ∃ key w',
    call Cache.store cache_obj [v] [] w = (Ok key, w')
    ∧ Cache.get cache_obj key (decoder v) w' = (Ok v, w')
    ∧ match v with
      | PStr _ => Cache.get_str cache_obj key w' = (Ok v, w')
      | PInt _ => Cache.get_int cache_obj key w' = (Ok v, w')
      | _ => True
      end.
Proof.
  intros Hfloat ((c & Hc & Hlt) & [ins Hins] & [outs Houts]) Hv.
  destruct (storable_encode v Hfloat Hv) as [vb Hvb].
  destruct (storable_args_text v Hfloat Hv) as [ib Hib].
  destruct (uuid_key (uuid4_int (entropy w (drawn w) mod 2 ^ 128)))
    as (kb & Hkb & Hlen).
  fold (next_key w) in Hkb.
  pose proof (counter_range _ _ _ Hc) as Hrange.
  destruct (stored_lookups c kb vb ib ins outs (db w) Hlen) as (_ & _ & _ & Hval);
    [lia|].
  eexists _, _. split.
  { eapply (Cache_store_success [v] [] w); eauto. }
  set (w' := set_db _ _).
  assert (∀ fn, Cache.get cache_obj (PStr (next_key w)) fn w' =
            match fn with Some f => f (PBytes vb) w' | None => (Ok (PBytes vb), w') end)
    as Hget.
  { intros fn. rewrite (Cache_get_run _ _ kb) by auto using encode_PStr.
    unfold Redis.get. subst w'. cbn [db set_db]. by rewrite Hval. }
  unfold Cache.get_str, Cache.get_int. rewrite !bind_run, !Hget.
  destruct v as [|z|f|s|b|l]; simpl in Hv; try done; cbn [decoder encode] in *.
  - rewrite utf8_encode_Z_to_dec in Hvb. injection Hvb as <-.
    rewrite lift_run. cbn [py_int]. by rewrite int_of_bytes_Z_to_dec.
  - destruct (Hfloat f) as (b & Hb & Hparse). rewrite Hb in Hvb.
    injection Hvb as <-. rewrite lift_run. cbn [py_float]. by rewrite Hparse.
  - destruct (utf8_encode s) as [b|] eqn:Hs; [|done]. injection Hvb as <-.
    rewrite lift_run. cbn [py_decode_utf8].
    by rewrite (utf8_decode_encode _ _ Hs).
  - by injection Hvb as <-.
Qed.

(** ** Counting and history over a run of calls *)

Lemma run_calls_cons m self args kw rest w :
  run_calls m self ((args, kw) :: rest) w =
    match call m self args kw w with
    | (Ok r, w1) =>
      match run_calls m self rest w1 with
      | (Ok rs, w2) => (Ok (r :: rs), w2)
      | (Raise e, w2) => (Raise e, w2)
      end
    | (Raise e, w1) => (Raise e, w1)
    end.
Proof.
  cbn [run_calls]. rewrite bind_run.
  destruct (call m self args kw w) as [[r|e] w1]; [|done].
  rewrite bind_run. by destruct (run_calls m self rest w1) as [[rs|e] w2].
Qed.

Lemma run_calls_length m self calls : ∀ w keys w',
  run_calls m self calls w = (Ok keys, w') → length keys = length calls.
Proof.
  induction calls as [|[a k] rest IH]; intros w keys w'.
  - by intros [= <- <-].
  - rewrite run_calls_cons.
    destruct (call _ _ _ _ _) as [[r|e] w2]; [|done].
    destruct (run_calls _ _ rest w2) as [[rs|e] w3] eqn:Hrest; [|done].
    intros [= <- <-]. simpl. f_equal. by eapply IH.
Qed.

(** The invariant of a run of successful calls of [store]: the counter
    and both logs grow in step. *)
Lemma run_calls_store calls : ∀ w keys w' c ins outs,
  Redis.counter counter_key (db w) = Some c →
  Redis.elements inputs_key (db w) = Some ins →
  Redis.elements outputs_key (db w) = Some outs →
  run_calls Cache.store cache_obj calls w = (Ok keys, w') →
  ∃ ins' outs',
    Redis.counter counter_key (db w') = Some (c + Z.of_nat (length calls))%Z
    ∧ Redis.elements inputs_key (db w') = Some (ins ++ ins')
    ∧ Redis.elements outputs_key (db w') = Some (outs ++ outs')
    ∧ Forall2 (λ c i, utf8_encode (py_str (PTuple c.1)) = Some i) calls ins'
    ∧ Forall2 (λ key o, ∃ s, key = PStr s ∧ utf8_encode s = Some o)
              keys outs'.
Proof.
  induction calls as [|[args kw] rest IH]; intros w keys w' c ins outs Hc Hins Houts.
  - intros [= <- <-]. exists [], []. rewrite !app_nil_r, Z.add_0_r.
    repeat split; auto.
  - rewrite run_calls_cons.
    destruct (call Cache.store cache_obj args kw w) as [[r|e] w1] eqn:Hcall; [|done].
    destruct (run_calls Cache.store cache_obj rest w1) as [[rs|e] w2] eqn:Hrest;
      [|done].
    intros [= <- <-].
    apply Cache_store_ok in Hcall
      as (c' & data & kb & vb & ib & ins0 & outs0 & Hc' & Hlt & _ & Hkb & Hlen
          & _ & Hib & Hins' & Houts' & -> & ->).
    assert (c' = c) as -> by congruence.
    assert (ins0 = ins) as -> by congruence.
    assert (outs0 = outs) as -> by congruence.
    pose proof (counter_range _ _ _ Hc) as Hrange.
    destruct (stored_lookups c kb vb ib ins outs (db w) Hlen)
      as (Hc1 & Hins1 & Houts1 & _); [lia|].
    destruct (IH (set_db (stored c kb vb ib ins outs (db w)) (drew w))
                 rs w2 (c + 1)%Z (ins ++ [ib]) (outs ++ [kb])
                 Hc1 Hins1 Houts1 Hrest)
      as (ins' & outs' & Hc2 & Hins2 & Houts2 & Hfi & Hfo).
    exists (ib :: ins'), (kb :: outs'). repeat split.
    + rewrite Hc2. f_equal. simpl length. lia.
    + by rewrite Hins2, <- app_assoc.
    + by rewrite Houts2, <- app_assoc.
    + by constructor.
    + constructor; [|done]. by eexists.
Qed.

(** C2. After [n] successive calls of the instrumented [store] on a
    fresh [Cache] that all returned, the counter under ["Cache.store"]
    (the qualified name of [store]) is [n], both logs have [n] entries,
    the [i]-th inputs entry is the text of the positional arguments of the
    [i]-th call and the [i]-th outputs entry is the key that call
    returned. *)
Theorem store_counter_and_history w0 self w calls keys w' :
  Cache.__init__ w0 = (Ok self, w) →
  run_calls Cache.store self calls w = (Ok keys, w') →
  encode (PStr (qualname Cache.store)) = Ok counter_key
  ∧ ∃ ins outs,
    Redis.counter counter_key (db w') = Some (Z.of_nat (length calls))
    ∧ Redis.elements inputs_key (db w') = Some ins
    ∧ length ins = length calls
    ∧ Redis.elements outputs_key (db w') = Some outs
    ∧ length outs = length calls
    ∧ ∀ i args kw key,
        calls !! i = Some (args, kw) → keys !! i = Some key →
        ∃ ib ob,
          utf8_encode (py_str (PTuple args)) = Some ib ∧ ins !! i = Some ib
          ∧ encode key = Ok ob ∧ outs !! i = Some ob.
Proof.
  intros Hinit Hrun. split; [done|].
  apply fresh_cache in Hinit as [-> ->].
  destruct (empty_db_reads counter_key) as [Hc _].
  destruct (empty_db_reads inputs_key) as [_ Hins].
  destruct (empty_db_reads outputs_key) as [_ Houts].
  destruct (run_calls_store _ (set_db ∅ w0) _ _ _ _ _ Hc Hins Houts Hrun)
    as (ins & outs & Hc' & Hins' & Houts' & Hfi & Hfo).
  exists ins, outs. simpl in Hc', Hins', Houts'.
  pose proof (Forall2_length _ _ _ Hfi) as Hli.
  pose proof (Forall2_length _ _ _ Hfo) as Hlo.
  pose proof (run_calls_length _ _ _ _ _ _ Hrun) as Hlk.
  repeat split; try done; try congruence.
  intros i args kw key Hcall Hkey.
  destruct (Forall2_lookup_l _ _ _ _ _ Hfi Hcall) as (ib & Hib & Henc).
  destruct (Forall2_lookup_l _ _ _ _ _ Hfo Hkey) as (ob & Hob & s & -> & Henc').
  exists ib, ob. repeat split; auto using encode_PStr.
Qed.

(** C3 (amended). [store] is decorated with the counting wrapper
    outermost and the history wrapper innermost.  For every call that
    binds to the wrapper, that is, every call without a keyword argument
    named [self], the increment comes first: the history wrapper and the
    body of [store] run in a world where the counter already reads
    [c + 1]; and it is never undone: whatever the outcome [r] of the
    call, an exception of the body or of an append included, the counter
    reads [c + 1] afterwards.  A call with a keyword argument named
    [self] raises TypeError while its arguments are bound, before the
    increment: it is not counted and changes nothing. *)
Theorem store_counts_bound_attempts args kw w c r w' :
  Redis.counter counter_key (db w) = Some c → (c < Redis.int64_max)%Z →
  call Cache.store cache_obj args kw w = (r, w') →
  Cache.store = count_calls (call_history Cache.store_body)
  ∧ (keyword_self kw = false →
     call (call_history Cache.store_body) cache_obj args kw
       (set_db (<[counter_key := Redis.Str (Z_to_dec (c + 1))]> (db w)) w)
     = (r, w')
     ∧ Redis.counter counter_key (db w') = Some (c + 1)%Z)
  ∧ (keyword_self kw = true → r = Raise TypeError ∧ w' = w).
Proof.
  intros Hc Hlt Hcall. split; [done|].
  pose proof (counter_range _ _ _ Hc) as Hrange.
  assert (Redis.int64_min ≤ c + 1 ≤ Redis.int64_max)%Z as Hrange' by lia.
  split; [intros Hkw; split|intros Hkw].
  - unfold Cache.store in Hcall.
    rewrite count_calls_run, bind_run in Hcall by done.
    rewrite (client_incr_run _ _ _ counter_key_enc), command_run in Hcall.
    by rewrite (incr_counter _ _ _ Hc Hlt) in Hcall.
  - destruct (uuid_key (uuid4_int (entropy w (drawn w) mod 2 ^ 128)))
      as (kb & Hkb & Hlen).
    fold (next_key w) in Hkb.
    destruct (uuid_key_fresh kb Hlen) as (Hk1 & Hk2 & Hk3).
    destruct keys_distinct as (Hd1 & Hd2 & Hd3).
    rewrite (Cache_store_run _ _ _ kb Hkw Hkb) in Hcall.
    rewrite (incr_counter _ _ _ Hc Hlt) in Hcall.
    assert (∀ k v d, k ≠ counter_key →
              Redis.counter counter_key d = Some (c + 1)%Z →
              Redis.counter counter_key (Redis.rpush k v d).2 = Some (c + 1)%Z)
      as Hpush.
    { intros k v d Hk Hd. unfold Redis.rpush.
      destruct (d !! k) as [[b|l]|]; simpl; try done;
        by rewrite counter_insert_ne. }
    pose proof (counter_insert counter_key (db w) (c + 1) Hrange') as H1.
    destruct (Cache.bind_data args kw) as [data|e];
      [|by injection Hcall as <- <-].
    destruct (encode data) as [vb|e]; [|by injection Hcall as <- <-].
    cbv zeta in Hcall.
    set (d2 := <[kb := Redis.Str vb]> _) in *.
    assert (Redis.counter counter_key d2 = Some (c + 1)%Z) as H2
      by (subst d2; by rewrite counter_insert_ne).
    destruct (utf8_encode (py_str (PTuple args))) as [ib|];
      [|by injection Hcall as <- <-].
    pose proof (Hpush inputs_key ib d2 (not_eq_sym Hd1) H2) as H3.
    destruct (Redis.rpush inputs_key ib d2) as [[n|e] d3];
      [|by injection Hcall as <- <-].
    pose proof (Hpush outputs_key kb d3 (not_eq_sym Hd2) H3) as H4.
    destruct (Redis.rpush outputs_key kb d3) as [[n'|e] d4];
      by injection Hcall as <- <-.
  - rewrite call_unbound in Hcall by done. by injection Hcall as <- <-.
Qed.

(** C10 (amended). For every call without a keyword argument named
    [self], both wrappers hand the keyword arguments to the wrapped
    operation unchanged and return its result; the entry appended to the
    inputs log is [str(args)], the text of the positional tuple alone, and
    the three keys are built from the qualified name alone.  So a call
    [store(data=v)] stores [v] and logs the empty tuple ["()"].  A keyword
    argument named [self] collides with the receiver when the call is
    bound to the wrapper: the call raises TypeError before either wrapper
    runs, and nothing is forwarded, counted or recorded. *)
Theorem kwargs_forwarded_not_recorded m self args kw w :
  is_Cache self = true → redis_attr self = Some RedisClient →
  (keyword_self kw = false →
   call (count_calls (call_history m)) self args kw w =
     (client_incr (PStr (qualname m));;
      r ← call m self args kw;
      client_rpush (PStr (qualname m ++ lit ":inputs"))
                   (PStr (py_str (PTuple args)));;
      client_rpush (PStr (qualname m ++ lit ":outputs")) r;;
      mret r) w)
  ∧ (keyword_self kw = true →
     call (count_calls (call_history m)) self args kw w
       = (Raise TypeError, w))
  ∧ (∀ v c kb vb ins outs,
       Redis.counter counter_key (db w) = Some c → (c < Redis.int64_max)%Z →
       utf8_encode (next_key w) = Some kb → encode v = Ok vb →
       Redis.elements inputs_key (db w) = Some ins →
       Redis.elements outputs_key (db w) = Some outs →
       call Cache.store cache_obj [] [(lit "data", v)] w =
         (Ok (PStr (next_key w)),
          set_db (stored c kb vb "()" ins outs (db w)) (drew w))).
Proof.
  intros Hc Hr. split; [|split].
  - intros Hkw. rewrite count_calls_run by done.
    rewrite !bind_run. cbn [qualname call_history].
    destruct (client_incr _ w) as [[z|e] w1]; [|done].
    by apply call_history_run.
  - intros Hkw. by apply call_unbound.
  - intros v c kb vb ins outs Hcnt Hlt Hkb Hvb Hins Houts.
    destruct (uuid_key (uuid4_int (entropy w (drawn w) mod 2 ^ 128)))
      as (kb' & Hkb' & Hlen).
    fold (next_key w) in Hkb'. rewrite Hkb in Hkb'. injection Hkb' as <-.
    by apply (Cache_store_success [] [(lit "data", v)] w c v).
Qed.

(** ** replay *)

Lemma print_run line w :
  print line w = (Ok tt, World (db w) (stdout w ++ [line]) (entropy w) (drawn w)).
Proof. reflexivity. Qed.

Lemma replay_lines_cons name input output rest w :
  replay_lines name ((input, output) :: rest) w =
    match utf8_decode input with
    | None => (Raise UnicodeDecodeError, w)
    | Some i =>
      match utf8_decode output with
      | None => (Raise UnicodeDecodeError, w)
      | Some o =>
        replay_lines name rest
          (World (db w)
                 (stdout w ++ [name ++ lit "(*" ++ i ++ lit ") -> " ++ o])
                 (entropy w) (drawn w))
      end
    end.
Proof.
  cbn [replay_lines]. rewrite bind_run, lift_run.
  destruct (utf8_decode input) as [i|]; [|done]. cbn [of_option].
  rewrite bind_run, lift_run.
  destruct (utf8_decode output) as [o|]; [|done]. cbn [of_option].
  by rewrite bind_run, print_run.
Qed.

(** The loop prints one line per pair while the entries decode. *)
Lemma replay_lines_prints name pairs : ∀ lines w,
  mapM (replay_line name) pairs = Some lines →
  replay_lines name pairs w =
    (Ok tt, World (db w) (stdout w ++ lines) (entropy w) (drawn w)).
Proof.
  induction pairs as [|[input output] rest IH]; intros lines w Hlines.
  - injection Hlines as <-. rewrite app_nil_r. by destruct w.
  - rewrite replay_lines_cons. apply mapM_Some in Hlines.
    inversion Hlines as [|? line ? ls Hline Hrest]; subst.
    unfold replay_line in Hline. cbn [fst snd] in Hline.
    destruct (utf8_decode input) as [i|]; [|done].
    destruct (utf8_decode output) as [o|]; [|done].
    injection Hline as <-.
    rewrite (IH ls) by (by apply mapM_Some). cbn [db stdout entropy drawn].
    by rewrite <- app_assoc.
Qed.

(** The loop never writes to the database. *)
Lemma replay_lines_db name pairs : ∀ w,
  db (replay_lines name pairs w).2 = db w.
Proof.
  induction pairs as [|[input output] rest IH]; intros w; [done|].
  rewrite replay_lines_cons.
  destruct (utf8_decode input) as [i|]; [|done].
  destruct (utf8_decode output) as [o|]; [|done].
  by rewrite IH.
Qed.

Lemma client_lrange_stdout name w r w' :
  client_lrange name 0 (-1) w = (r, w') → w' = w.
Proof.
  unfold client_lrange. rewrite bind_run, lift_run.
  destruct (encode name) as [k|e]; [|by intros [= <- <-]].
  rewrite command_run.
  destruct (Redis.lrange k 0 (-1) (db w));
    intros [= <- <-]; by rewrite set_db_same.
Qed.

(** The report of [replay] when both logs can be read and decoded. *)
Lemma replay_ok m w ik ok ins outs lines :
  utf8_encode (qualname m ++ lit ":inputs") = Some ik →
  utf8_encode (qualname m ++ lit ":outputs") = Some ok →
  Redis.elements ik (db w) = Some ins →
  Redis.elements ok (db w) = Some outs →
  mapM (replay_line (qualname m)) (zip ins outs) = Some lines →
  replay m w =
    (Ok tt,
     World (db w)
           (stdout w ++ replay_header (qualname m) (length ins) :: lines)
           (entropy w) (drawn w)).
Proof.
  intros Hik Hok Hins Houts Hlines. unfold replay. cbv zeta.
  rewrite bind_run, (client_lrange_run _ ik) by auto using encode_PStr.
  rewrite Hins, bind_run, (client_lrange_run _ ok) by auto using encode_PStr.
  rewrite Houts, bind_run, print_run.
  rewrite (replay_lines_prints _ _ lines) by done.
  cbn [db stdout entropy drawn]. by rewrite <- app_assoc.
Qed.

(** C8 (amended). In every state where the two log keys of the name are
    missing or hold lists and the entries that [zip] pairs are valid
    UTF-8, [replay] prints a header with the name and the number of
    entries of the inputs log, then one line
    ["name(*inputs[i]) -> outputs[i]"] per index of the shorter log, and
    raises nothing.  In every state whatsoever, [replay] leaves the
    database as it found it. *)
Theorem replay_prints_history m w ik ok ins outs lines :
  utf8_encode (qualname m ++ lit ":inputs") = Some ik →
  utf8_encode (qualname m ++ lit ":outputs") = Some ok →
  Redis.elements ik (db w) = Some ins →
  Redis.elements ok (db w) = Some outs →
  mapM (replay_line (qualname m)) (zip ins outs) = Some lines →
  replay m w =
    (Ok tt,
     World (db w)
           (stdout w ++ replay_header (qualname m) (length ins) :: lines)
           (entropy w) (drawn w))
  ∧ length lines = (length ins `min` length outs)%nat
  ∧ (∀ i line, lines !! i = Some line →
       ∃ input output x y,
         ins !! i = Some input ∧ outs !! i = Some output
         ∧ utf8_decode input = Some x ∧ utf8_decode output = Some y
         ∧ line = qualname m ++ lit "(*" ++ x ++ lit ") -> " ++ y)
  ∧ (∀ m0 w0, db (replay m0 w0).2 = db w0).
Proof.
  intros Hik Hok Hins Houts Hlines. repeat split.
  - unfold replay. cbv zeta.
    rewrite bind_run, (client_lrange_run _ ik) by auto using encode_PStr.
    rewrite Hins, bind_run, (client_lrange_run _ ok) by auto using encode_PStr.
    rewrite Houts, bind_run, print_run.
    rewrite (replay_lines_prints _ _ lines) by done.
    cbn [db stdout entropy drawn]. by rewrite <- app_assoc.
  - apply mapM_Some, Forall2_length in Hlines.
    by rewrite <- Hlines, length_zip.
  - intros i line Hline. apply mapM_Some in Hlines.
    destruct (Forall2_lookup_r _ _ _ _ _ Hlines Hline) as ([a b] & Hzip & Hab).
    apply lookup_zip_Some in Hzip as [Ha Hb].
    unfold replay_line in Hab. simpl in Hab.
    destruct (utf8_decode a) as [x|] eqn:Hx; [|done].
    destruct (utf8_decode b) as [y|] eqn:Hy; [|done].
    injection Hab as <-. by exists a, b, x, y.
  - intros m0 w0. unfold replay. cbv zeta. rewrite bind_run.
    destruct (client_lrange _ 0 (-1) w0) as [[l1|e] w1] eqn:H1;
      apply client_lrange_stdout in H1 as ->; [|done].
    rewrite bind_run.
    destruct (client_lrange _ 0 (-1) w0) as [[l2|e] w2] eqn:H2;
      apply client_lrange_stdout in H2 as ->; [|done].
    rewrite bind_run, print_run. by rewrite replay_lines_db.
Qed.

(** * Further properties of the module *)

(** ** Reading never writes *)

(** X1. Reading never writes: through a client, [get] without [fn],
    [get_str] and [get_int] leave the database, the output and the entropy
    as they are, whatever the key and the outcome, errors included. *)
Theorem readers_leave_world self key w :
  redis_attr self = Some RedisClient →
  (Cache.get self key None w).2 = w
  ∧ (Cache.get_str self key w).2 = w
  ∧ (Cache.get_int self key w).2 = w.
Proof.
  intros Hr.
  assert (∃ r, Cache.get self key None w = (r, w)) as [r Hget].
  { unfold Cache.get. rewrite bind_run, get_redis_client by done.
    cbn [on_client].
    rewrite bind_run. unfold client_get. rewrite bind_run, lift_run.
    destruct (encode key) as [k|e]; [|by eexists].
    rewrite bind_run, command_run, set_db_same.
    destruct (Redis.get k (db w)) as [[b|]|e]; by eexists. }
  unfold Cache.get_str, Cache.get_int. rewrite !bind_run, Hget.
  repeat split; destruct r as [[]|]; try done; rewrite lift_run; done.
Qed.

(** ** The decorators in either order *)

(** The guard of the decorators depends on the receiver alone. *)
Lemma instrumented_cases self :
  ((∀ w, instrumented self w = (Ok true, w))
   ∧ is_Cache self = true ∧ redis_attr self = Some RedisClient)
  ∨ ((∀ w, instrumented self w = (Ok false, w))
     ∧ (is_Cache self = false ∨ ∃ h, redis_attr self = Some (NotRedis h)))
  ∨ ((∀ w, instrumented self w = (Raise AttributeError, w))
     ∧ is_Cache self = true ∧ redis_attr self = None).
Proof.
  unfold instrumented, get_redis.
  destruct (is_Cache self); [|right; left; auto].
  destruct (redis_attr self) as [[|h]|];
    [left; auto | right; left; split; [done|right; by eexists] | right; right; auto].
Qed.

Lemma count_calls_guard m self args kw w :
  keyword_self kw = false →
  call (count_calls m) self args kw w =
    match instrumented self w with
    | (Ok true, w1) =>
      (get_redis self ≫= λ r,
       on_client r (client_incr (PStr (qualname m)));;
       call m self args kw) w1
    | (Ok false, w1) => call m self args kw w1
    | (Raise e, w1) => (Raise e, w1)
    end.
Proof.
  intros Hkw. rewrite (call_bound (count_calls m)) by done.
  cbn [count_calls body]. rewrite bind_run.
  destruct (instrumented self w) as [[[]|e] w1]; [| |done].
  - rewrite !bind_run. destruct (get_redis self w1) as [[r|e] w2]; [|done].
    rewrite !bind_run. by destruct (on_client r _ w2) as [[z|e] w3].
  - by rewrite bind_run, ret_run.
Qed.

Lemma call_history_guard m self args kw w :
  call (call_history m) self args kw w =
    match call m self args kw w with
    | (Ok r, w1) =>
      match instrumented self w1 with
      | (Ok true, w2) =>
        (get_redis self ≫= λ c,
         on_client c (client_rpush (PStr (qualname m ++ lit ":inputs"))
                                   (PStr (py_str (PTuple args))));;
         get_redis self ≫= λ c,
         on_client c (client_rpush (PStr (qualname m ++ lit ":outputs")) r);;
         mret r) w2
      | (Ok false, w2) => (Ok r, w2)
      | (Raise e, w2) => (Raise e, w2)
      end
    | (Raise e, w1) => (Raise e, w1)
    end.
Proof.
  rewrite (call_run (call_history m)).
  destruct (keyword_self kw) eqn:Hkw; [by rewrite call_unbound|].
  cbn [call_history body]. rewrite bind_run.
  destruct (call m self args kw w) as [[r|e] w1]; [|done].
  rewrite bind_run.
  destruct (instrumented self w1) as [[[]|e] w2]; [| |done].
  - rewrite !bind_run. destruct (get_redis self w2) as [[c|e] w3]; [|done].
    rewrite !bind_run. destruct (on_client c _ w3) as [[z|e] w4]; [|done].
    rewrite !bind_run. destruct (get_redis self w4) as [[c'|e] w5]; [|done].
    rewrite !bind_run. by destruct (on_client c' _ w5) as [[z'|e] w6].
  - by rewrite bind_run, !ret_run.
Qed.

(** X2. Stacking [call_history] over [count_calls] behaves exactly as the
    stacking used for [store], [count_calls] over [call_history]: for every
    method, receiver and world the two calls end in the same outcome and the
    same world. *)
Theorem decorators_commute m self args kw w :
  call (call_history (count_calls m)) self args kw w
  = call (count_calls (call_history m)) self args kw w.
Proof.
  destruct (keyword_self kw) eqn:Hkw; [by rewrite !call_unbound|].
  rewrite (call_history_guard (count_calls m)),
    (count_calls_guard (call_history m)) by done.
  rewrite (count_calls_guard m) by done.
  cbn [qualname count_calls call_history].
  destruct (instrumented_cases self) as [(Hi & _)|[(Hi & _)|(Hi & _)]];
    rewrite !Hi; [| |done].
  - rewrite !bind_run. destruct (get_redis self w) as [[c|e] w1]; [|done].
    rewrite !bind_run. destruct (on_client c _ w1) as [[z|e] w2]; [|done].
    rewrite (call_history_guard m).
    destruct (call m self args kw w2) as [[r|e] w3]; [|done].
    by rewrite !Hi.
  - rewrite (call_history_guard m).
    destruct (call m self args kw w) as [[r|e] w1]; [|done].
    by rewrite !Hi.
Qed.

(** ** When the instrumentation fails *)

(** X3. When the counter cannot be incremented, because its key holds a
    list or a string that is no integer, or because it has reached the
    largest 64-bit integer, every call of [store] raises and does nothing
    else: no key is drawn, nothing is stored, nothing is logged.  The
    exception is the error reply of INCR, unless a keyword argument named
    [self] made the call fail with TypeError while it was bound. *)
Theorem store_blocked_by_counter args kw w :
  Redis.counter counter_key (db w) = None
  ∨ Redis.counter counter_key (db w) = Some Redis.int64_max →
  ∃ e, call Cache.store cache_obj args kw w = (Raise e, w)
       ∧ (keyword_self kw = true → e = TypeError)
       ∧ (keyword_self kw = false → ∃ r, e = ResponseError r).
Proof.
  intros Hbad. destruct (keyword_self kw) eqn:Hkw.
  { exists TypeError. by rewrite call_unbound. }
  unfold Cache.store.
  rewrite count_calls_run, bind_run by done.
  rewrite (client_incr_run _ _ _ counter_key_enc), command_run.
  destruct (incr_cases counter_key (db w)) as [[e ->]|(c & Hc & Hlt & _)].
  - exists (ResponseError e). rewrite set_db_same.
    split; [done|]. split; [done|]. by eexists.
  - destruct Hbad as [Hbad|Hbad]; rewrite Hbad in Hc; [done|].
    injection Hc as <-. lia.
Qed.

(** X4. The two appends of [call_history] are separate commands: when the
    result of the method cannot be sent to Redis ([None], a tuple), the
    inputs entry is already appended, nothing is appended to the outputs and
    the caller gets the encoding error instead of the result. *)
Theorem history_half_recorded m self args kw w r w1 e ik ib ins :
  is_Cache self = true → redis_attr self = Some RedisClient →
  call m self args kw w = (Ok r, w1) →
  encode r = Raise e →
  utf8_encode (qualname m ++ lit ":inputs") = Some ik →
  utf8_encode (py_str (PTuple args)) = Some ib →
  Redis.elements ik (db w1) = Some ins →
  call (call_history m) self args kw w =
    (Raise e, set_db (<[ik := Redis.List (ins ++ [ib])]> (db w1)) w1).
Proof.
  intros Hc Hr Hm He Hik Hib Hins.
  rewrite call_history_run, bind_run, Hm by done.
  rewrite bind_run.
  rewrite (client_rpush_run _ _ ik ib) by auto using encode_PStr.
  rewrite command_run, (rpush_elements _ _ _ _ Hins).
  rewrite bind_run. unfold client_rpush.
  rewrite bind_run, lift_run. cbn [encode].
  destruct (utf8_encode (qualname m ++ lit ":outputs")) as [ok|] eqn:Hok;
    cbn [of_option]; [|].
  - by rewrite bind_run, lift_run, He.
  - (* the name itself cannot be encoded: impossible, its inputs key can *)
    exfalso.
    assert (is_Some (utf8_encode (qualname m ++ lit ":outputs"))) as [? Hs];
      [|congruence].
    apply utf8_encode_Some, Forall_app_2; [|apply lit_encodable].
    assert (Forall encodable (qualname m ++ lit ":inputs")) as Hf
      by (apply utf8_encode_Some; by eexists).
    by apply Forall_app in Hf as [? _].
Qed.

(** X5. On an object that has no attribute [_redis], [store] always
    raises and never touches the database or the output.  On an instance
    of [Cache] nothing at all happens before the exception, which is the
    AttributeError of the guard of [count_calls], or the TypeError of the
    binding when a keyword argument is named [self]. *)
Theorem store_without_client self args kw w :
  redis_attr self = None →
  ∃ e w', call Cache.store self args kw w = (Raise e, w')
          ∧ db w' = db w ∧ stdout w' = stdout w
          ∧ (is_Cache self = true →
             w' = w
             ∧ e = if keyword_self kw then TypeError else AttributeError).
Proof.
  intros Hr. destruct (keyword_self kw) eqn:Hkw.
  { exists TypeError, w. by rewrite call_unbound. }
  assert (∃ e w', call Cache.store_body self args kw w = (Raise e, w')
                  ∧ db w' = db w ∧ stdout w' = stdout w) as Hbody.
  { rewrite call_bound by done. unfold Cache.store_body. cbn [body].
    rewrite bind_run, lift_run.
    destruct (Cache.bind_data args kw) as [data|e]; [|by eexists _, _].
    rewrite bind_run. unfold uuid4 at 1. rewrite bind_run.
    unfold get_redis. rewrite lift_run, Hr. by eexists _, _. }
  unfold Cache.store. rewrite count_calls_guard by done.
  destruct (instrumented_cases self)
    as [(_ & _ & Hr')|[(Hi & Hcls)|(Hi & _)]];
    [congruence| |]; rewrite Hi.
  - destruct Hbody as (e & w' & Hb & Hdb & Hout). exists e, w'.
    rewrite call_history_guard, Hb. do 3 (split; [done|]).
    intros Hc. destruct Hcls as [Hcls|[h Hh]]; congruence.
  - by exists AttributeError, w.
Qed.

(** ** The key that [store] returns *)

Lemma store_body_returns self args kw w r w' :
  call Cache.store_body self args kw w = (Ok r, w') →
  r = PStr (next_key w).
Proof.
  intros Hcall. pose proof (call_Ok_bound _ _ _ _ _ _ _ Hcall) as Hkw.
  revert Hcall. rewrite call_bound by done.
  unfold Cache.store_body. cbn [body]. rewrite bind_run, lift_run.
  destruct (Cache.bind_data args kw) as [data|e]; [|done].
  rewrite bind_run. unfold uuid4 at 1. fold (next_key w). fold (drew w).
  rewrite bind_run.
  destruct (get_redis self (drew w)) as [[c|e] w1]; [|done].
  rewrite bind_run.
  destruct (on_client c _ w1) as [[u|e] w2]; [|done].
  rewrite ret_run. by intros [= <- <-].
Qed.

Lemma call_history_returns m self args kw w r w' :
  call (call_history m) self args kw w = (Ok r, w') →
  ∃ w1, call m self args kw w = (Ok r, w1).
Proof.
  rewrite call_history_guard.
  destruct (call m self args kw w) as [[r1|e] w1]; [|done].
  destruct (instrumented self w1) as [[[]|e] w2]; [| |done].
  - rewrite !bind_run. destruct (get_redis self w2) as [[c|e] w3]; [|done].
    rewrite !bind_run. destruct (on_client c _ w3) as [[z|e] w4]; [|done].
    rewrite !bind_run. destruct (get_redis self w4) as [[c'|e] w5]; [|done].
    rewrite !bind_run. destruct (on_client c' _ w5) as [[z'|e] w6]; [|done].
    rewrite ret_run. intros [= <- <-]. by eexists.
  - intros [= <- <-]. by eexists.
Qed.

Lemma count_calls_returns m self args kw w r w' :
  call (count_calls m) self args kw w = (Ok r, w') →
  ∃ w1, call m self args kw w1 = (Ok r, w') ∧ entropy w1 = entropy w ∧ drawn w1 = drawn w.
Proof.
  intros Hcall. pose proof (call_Ok_bound _ _ _ _ _ _ _ Hcall) as Hkw.
  revert Hcall. rewrite count_calls_guard by done.
  destruct (instrumented_cases self) as [(Hi & _)|[(Hi & _)|(Hi & _)]];
    rewrite Hi; [| |done].
  - rewrite bind_run. unfold get_redis at 1. rewrite lift_run.
    destruct (redis_attr self) as [[|h]|]; cbn [of_option on_client]; [|done..].
    rewrite bind_run. unfold client_incr. rewrite bind_run, lift_run.
    destruct (encode _) as [k|e]; [|done].
    unfold command. destruct (Redis.incr k (db w)) as [[z|e] d]; [|done].
    intros Hcall. by eexists.
  - intros Hcall. by eexists.
Qed.

(** X6. The key [store] returns is the canonical text of a random (version
    4, RFC 4122) UUID, whatever the receiver and the arguments. *)
Theorem store_returns_uuid4 self args kw w r w' :
  call Cache.store self args kw w = (Ok r, w') →
  ∃ s, r = PStr s ∧ is_uuid4_text s ∧ length s = 36%nat.
Proof.
  unfold Cache.store. intros Hcall.
  apply count_calls_returns in Hcall as (w1 & Hcall & He & Hd).
  apply call_history_returns in Hcall as (w2 & Hcall).
  apply store_body_returns in Hcall as ->.
  eexists. split; [reflexivity|]. unfold next_key.
  split; [apply uuid_str_shape|apply length_uuid_str].
Qed.

(** ** The steps of a call of store *)

(** What redis-py accepts as a value also has a text that can be sent:
    the inputs entry of a call whose value was stored can be encoded. *)
Lemma encoded_args_text args kw data vb :
  Cache.bind_data args kw = Ok data → encode data = Ok vb →
  is_Some (utf8_encode (py_str (PTuple args))).
Proof.
  unfold Cache.bind_data.
  destruct args as [|a [|a' args]], kw as [|[k v] [|p kw]]; try done.
  intros [= ->] Hvb. apply utf8_encode_Some.
  cbn [py_str py_repr map tuple_repr]. encodable_parts.
  destruct data as [|z|f|s|b|l]; cbn [encode py_repr] in *; try done.
  - apply utf8_encode_Some. rewrite utf8_encode_Z_to_dec. by eexists.
  - apply utf8_encode_Some.
    destruct (utf8_encode (float_repr f)); [by eexists|done].
  - apply str_repr_encodable, utf8_encode_Some.
    destruct (utf8_encode s); [by eexists|done].
  - apply bytes_repr_encodable.
Qed.

(** On a database where the instrumentation can run, a call of [store]
    that binds to the wrappers ends in one of three ways. *)
Lemma Cache_store_cases args kw w c ins outs :
  keyword_self kw = false →
  Redis.counter counter_key (db w) = Some c → (c < Redis.int64_max)%Z →
  Redis.elements inputs_key (db w) = Some ins →
  Redis.elements outputs_key (db w) = Some outs →
  (Cache.bind_data args kw = Raise TypeError
   ∧ call Cache.store cache_obj args kw w
     = (Raise TypeError, set_db (counted c (db w)) w))
  ∨ (∃ data e,
       Cache.bind_data args kw = Ok data ∧ encode data = Raise e
       ∧ call Cache.store cache_obj args kw w
         = (Raise e, set_db (counted c (db w)) (drew w)))
  ∨ (∃ data kb vb ib,
       Cache.bind_data args kw = Ok data ∧ encode data = Ok vb
       ∧ utf8_encode (next_key w) = Some kb ∧ String.length kb = 36%nat
       ∧ utf8_encode (py_str (PTuple args)) = Some ib
       ∧ call Cache.store cache_obj args kw w
         = (Ok (PStr (next_key w)),
            set_db (stored c kb vb ib ins outs (db w)) (drew w))).
Proof.
  intros Hkw Hc Hlt Hins Houts.
  destruct (uuid_key (uuid4_int (entropy w (drawn w) mod 2 ^ 128)))
    as (kb & Hkb & Hlen).
  fold (next_key w) in Hkb.
  rewrite (Cache_store_run _ _ _ kb Hkw Hkb), (incr_counter _ _ _ Hc Hlt).
  fold (counted c (db w)).
  destruct (Cache.bind_data args kw) as [data|e] eqn:Hdata.
  2: { apply bind_data_TypeError in Hdata as ->. by left. }
  destruct (encode data) as [vb|e] eqn:Hvb.
  2: { right; left. by exists data, e. }
  destruct (encoded_args_text _ _ _ _ Hdata Hvb) as [ib Hib].
  right; right. exists data, kb, vb, ib.
  rewrite <- (Cache_store_success args kw w c data kb vb ib ins outs) by done.
  rewrite (Cache_store_run _ _ _ kb Hkw Hkb), (incr_counter _ _ _ Hc Hlt), Hdata, Hvb.
  done.
Qed.

(** X7. A call that does not bind to [(self, data)], that is, with no
    value, with more than one, or with a keyword other than [data],
    raises TypeError and nothing else.  It is counted first, with no key
    drawn and nothing else written, unless one of its keywords is named
    [self]: such a call fails while it is bound to the counting wrapper,
    before the increment, and changes nothing. *)
Theorem store_bad_arguments args kw w c e :
  Cache.bind_data args kw = Raise e →
  Redis.counter counter_key (db w) = Some c → (c < Redis.int64_max)%Z →
  e = TypeError
  ∧ call Cache.store cache_obj args kw w
    = (Raise TypeError,
       if keyword_self kw then w else set_db (counted c (db w)) w).
Proof.
  intros Hdata Hc Hlt. split; [by apply bind_data_TypeError in Hdata|].
  destruct (keyword_self kw) eqn:Hkw; [by rewrite call_unbound|].
  destruct (uuid_key (uuid4_int (entropy w (drawn w) mod 2 ^ 128)))
    as (kb & Hkb & _).
  fold (next_key w) in Hkb.
  rewrite (Cache_store_run _ _ _ kb Hkw Hkb), (incr_counter _ _ _ Hc Hlt), Hdata.
  by apply bind_data_TypeError in Hdata as ->.
Qed.

(** X8. A value that redis-py cannot send, that is, [None], a tuple, or a
    [str] with a lone surrogate, is refused with [DataError] or
    [UnicodeEncodeError] after the call was counted and its key drawn: the
    counter has moved, nothing is stored and neither log has changed. *)
Theorem store_rejects_unencodable v e w c :
  encode v = Raise e →
  Redis.counter counter_key (db w) = Some c → (c < Redis.int64_max)%Z →
  (e = DataError ∨ e = UnicodeEncodeError)
  ∧ call Cache.store cache_obj [v] [] w
    = (Raise e, set_db (counted c (db w)) (drew w)).
Proof.
  intros Hv Hc Hlt. split.
  - destruct v as [|z|f|s|b|l]; cbn [encode] in Hv;
      try (injection Hv as <-; by left); try done;
      match type of Hv with
      | of_option _ ?o = _ => destruct o; [done|injection Hv as <-; by right]
      end.
  - destruct (uuid_key (uuid4_int (entropy w (drawn w) mod 2 ^ 128)))
      as (kb & Hkb & _).
    fold (next_key w) in Hkb.
    assert (keyword_self [] = false) as Hkw by done.
    rewrite (Cache_store_run _ _ _ kb Hkw Hkb), (incr_counter _ _ _ Hc Hlt).
    cbn [Cache.bind_data]. by rewrite Hv.
Qed.

(** The run of attempts on a fresh cache: every attempt that binds is
    counted and only the ones that returned are logged. *)
Lemma run_attempts_store calls : ∀ w rs w' c ins outs,
  Redis.counter counter_key (db w) = Some c →
  (c + Z.of_nat (length calls) ≤ Redis.int64_max)%Z →
  Redis.elements inputs_key (db w) = Some ins →
  Redis.elements outputs_key (db w) = Some outs →
  run_attempts Cache.store cache_obj calls w = (rs, w') →
  ∃ ins' outs',
    Redis.counter counter_key (db w')
      = Some (c + Z.of_nat (length (bound_calls calls)))%Z
    ∧ Redis.elements inputs_key (db w') = Some (ins ++ ins')
    ∧ Redis.elements outputs_key (db w') = Some (outs ++ outs')
    ∧ length rs = length calls
    ∧ length ins' = length (List.filter is_Ok rs)
    ∧ Forall (λ i, ∃ s, utf8_encode s = Some i) ins'
    ∧ Forall2 (λ r o, ∃ s, r = Ok (PStr s) ∧ utf8_encode s = Some o)
              (List.filter is_Ok rs) outs'.
Proof.
  induction calls as [|[args kw] rest IH];
    intros w rs w' c ins outs Hc Hmax Hins Houts.
  - intros [= <- <-]. exists [], []. rewrite !app_nil_r, Z.add_0_r.
    repeat split; done.
  - cbn [run_attempts].
    destruct (call Cache.store cache_obj args kw w) as [r w1] eqn:Hcall.
    destruct (run_attempts Cache.store cache_obj rest w1) as [rs1 w2] eqn:Hrest.
    intros [= <- <-].
    pose proof (counter_range _ _ _ Hc) as Hrange.
    simpl length in Hmax.
    assert (c < Redis.int64_max)%Z as Hlt by lia.
    unfold bound_calls. cbn [List.filter snd].
    destruct (keyword_self kw) eqn:Hkw; cbn [negb].
    { rewrite call_unbound in Hcall by done. injection Hcall as <- <-.
      destruct (IH w _ _ c ins outs Hc ltac:(lia) Hins Houts Hrest)
        as (ins' & outs' & Hc2 & Hi2 & Ho2 & Hl & Hli & Hdi & Hlo).
      exists ins', outs'. simpl. repeat split; try done. lia. }
    destruct keys_distinct as (Hd1 & Hd2 & Hd3).
    assert (Redis.counter counter_key (counted c (db w)) = Some (c + 1)%Z
            ∧ Redis.elements inputs_key (counted c (db w)) = Some ins
            ∧ Redis.elements outputs_key (counted c (db w)) = Some outs)
      as (Hc1 & Hi1 & Ho1).
    { unfold counted. rewrite !elements_insert_ne by done.
      split; [|done]. apply counter_insert. lia. }
    fold (bound_calls rest). simpl length.
    destruct (Cache_store_cases args kw w c ins outs Hkw Hc Hlt Hins Houts)
      as [(_ & Hrun)|[(data & e & _ & _ & Hrun)
                     |(data & kb & vb & ib & _ & _ & Hkb & Hlen & Hib & Hrun)]];
      rewrite Hrun in Hcall; injection Hcall as <- <-.
    + destruct (IH (set_db (counted c (db w)) w)
                   _ _ (c + 1)%Z ins outs Hc1 ltac:(lia) Hi1 Ho1 Hrest)
        as (ins' & outs' & Hc2 & Hi2 & Ho2 & Hl & Hli & Hdi & Hlo).
      exists ins', outs'. simpl. repeat split; try done; [|lia].
      rewrite Hc2. f_equal. lia.
    + destruct (IH (set_db (counted c (db w)) (drew w))
                   _ _ (c + 1)%Z ins outs Hc1 ltac:(lia) Hi1 Ho1 Hrest)
        as (ins' & outs' & Hc2 & Hi2 & Ho2 & Hl & Hli & Hdi & Hlo).
      exists ins', outs'. simpl. repeat split; try done; [|lia].
      rewrite Hc2. f_equal. lia.
    + destruct (stored_lookups c kb vb ib ins outs (db w) Hlen)
        as (Hc1' & Hi1' & Ho1' & _); [lia|].
      destruct (IH (set_db (stored c kb vb ib ins outs (db w)) (drew w))
                   _ _ (c + 1)%Z (ins ++ [ib]) (outs ++ [kb])
                   Hc1' ltac:(lia) Hi1' Ho1' Hrest)
        as (ins' & outs' & Hc2 & Hi2 & Ho2 & Hl & Hli & Hdi & Hlo).
      exists (ib :: ins'), (kb :: outs'). simpl. repeat split.
      * rewrite Hc2. f_equal. lia.
      * by rewrite Hi2, <- app_assoc.
      * by rewrite Ho2, <- app_assoc.
      * lia.
      * lia.
      * constructor; [|done]. by eexists.
      * constructor; [|done]. by eexists.
Qed.

(** X9. From a fresh [Cache], whatever the arguments of the calls and
    whichever of them raise, the counter of [store] is the number of
    calls that were bound to the wrapper, that is, of the calls without a
    keyword argument named [self]; the inputs log has one entry per call
    that returned, and the outputs log lists the keys that were returned,
    in order. *)
Theorem store_attempts_counted w0 self w calls rs w' :
  Cache.__init__ w0 = (Ok self, w) →
  (Z.of_nat (length calls) ≤ Redis.int64_max)%Z →
  run_attempts Cache.store self calls w = (rs, w') →
  ∃ ins outs,
    Redis.counter counter_key (db w')
      = Some (Z.of_nat (length (bound_calls calls)))
    ∧ Redis.elements inputs_key (db w') = Some ins
    ∧ Redis.elements outputs_key (db w') = Some outs
    ∧ length rs = length calls
    ∧ length ins = length (List.filter is_Ok rs)
    ∧ Forall2 (λ r o, ∃ s, r = Ok (PStr s) ∧ utf8_encode s = Some o)
              (List.filter is_Ok rs) outs.
Proof.
  intros Hinit Hmax Hrun.
  apply fresh_cache in Hinit as [-> ->].
  destruct (empty_db_reads counter_key) as [Hc _].
  destruct (empty_db_reads inputs_key) as [_ Hins].
  destruct (empty_db_reads outputs_key) as [_ Houts].
  destruct (run_attempts_store calls (set_db ∅ w0) _ _ 0%Z [] [] Hc Hmax
              Hins Houts Hrun)
    as (ins & outs & Hc' & Hins' & Houts' & Hl & Hli & _ & Hlo).
  by exists ins, outs.
Qed.

(** ** What [store] writes *)

Lemma incr_other k d k' :
  k' ≠ k → (Redis.incr k d).2 !! k' = d !! k'.
Proof.
  intros Hne. unfold Redis.incr.
  destruct (d !! k) as [[b|l]|]; simpl; [| done |by rewrite lookup_insert_ne].
  destruct (Redis.string2ll b) as [z|]; [|done].
  case_match; simpl; [by rewrite lookup_insert_ne|done].
Qed.

Lemma rpush_other k v d k' :
  k' ≠ k → (Redis.rpush k v d).2 !! k' = d !! k'.
Proof.
  intros Hne. unfold Redis.rpush.
  destruct (d !! k) as [[b|l]|]; simpl; by rewrite ?lookup_insert_ne.
Qed.

(** X10. Whatever its outcome, a call of [store] writes to four keys at
    most, the counter, the two logs and the key it draws, prints nothing and
    draws at most one key. *)
Theorem store_writes_four_keys args kw w r w' kb :
  utf8_encode (next_key w) = Some kb →
  call Cache.store cache_obj args kw w = (r, w') →
  stdout w' = stdout w ∧ entropy w' = entropy w
  ∧ (drawn w' = drawn w ∨ drawn w' = S (drawn w))
  ∧ ∀ k, k ≠ counter_key → k ≠ inputs_key → k ≠ outputs_key → k ≠ kb →
         db w' !! k = db w !! k.
Proof.
  intros Hkb. destruct (keyword_self kw) eqn:Hkw.
  { rewrite call_unbound by done. intros [= <- <-]. repeat split; auto. }
  rewrite (Cache_store_run _ _ _ kb Hkw Hkb).
  pose proof (incr_other counter_key (db w)) as H1.
  destruct (Redis.incr counter_key (db w)) as [[z|e] d1];
    [|intros [= <- <-]; repeat split; auto].
  destruct (Cache.bind_data args kw) as [data|e];
    [|intros [= <- <-]; repeat split; auto].
  destruct (encode data) as [vb|e];
    [|intros [= <- <-]; repeat split; auto].
  cbv zeta.
  assert (∀ k, k ≠ counter_key → k ≠ kb →
               <[kb := Redis.Str vb]> d1 !! k = db w !! k) as H2.
  { intros k Hk1 Hk2. rewrite lookup_insert_ne by done. by apply H1. }
  destruct (utf8_encode (py_str (PTuple args))) as [ib|];
    [|intros [= <- <-]; repeat split; auto].
  pose proof (rpush_other inputs_key ib (<[kb := Redis.Str vb]> d1)) as H3.
  destruct (Redis.rpush inputs_key ib _) as [[n|e] d3].
  2: { intros [= <- <-]. repeat split; auto.
       intros k ? ? ? ?. cbn [db set_db drew]. rewrite H3 by done. auto. }
  pose proof (rpush_other outputs_key kb d3) as H4.
  destruct (Redis.rpush outputs_key kb d3) as [[n'|e] d4];
    intros [= <- <-]; repeat split; auto;
    intros k ? ? ? ?; cbn [db set_db drew]; rewrite H4, H3 by done; auto.
Qed.

(** ** Reading back after several calls *)

(** A run of calls of [store] leaves alone every key that is neither one
    of the three keys of the instrumentation nor one of the keys drawn. *)
Lemma run_calls_store_other calls : ∀ w keys w' k,
  run_calls Cache.store cache_obj calls w = (Ok keys, w') →
  k ≠ counter_key → k ≠ inputs_key → k ≠ outputs_key →
  (∀ s, PStr s ∈ keys → utf8_encode s ≠ Some k) →
  db w' !! k = db w !! k.
Proof.
  induction calls as [|[args kw] rest IH]; intros w keys w' k.
  - by intros [= <- <-].
  - rewrite run_calls_cons.
    destruct (call Cache.store cache_obj args kw w) as [[r|e] w1] eqn:Hcall;
      [|done].
    destruct (run_calls Cache.store cache_obj rest w1) as [[rs|e] w2] eqn:Hrest;
      [|done].
    intros [= <- <-] Hk1 Hk2 Hk3 Hkeys.
    apply Cache_store_ok in Hcall
      as (c & data & kb & vb & ib & ins & outs & _ & _ & _ & Hkb & _ & _ & _
          & _ & _ & -> & ->).
    rewrite (IH _ _ _ k Hrest) by
      (try done; intros s Hs; apply Hkeys; by apply list_elem_of_further).
    cbn [db set_db]. unfold stored.
    rewrite !lookup_insert_ne; try done.
    intros <-. by apply (Hkeys (next_key w)); [apply list_elem_of_here|].
Qed.

(** X11. After a run of calls of [store] that all returned, with keys that
    are pairwise distinct, every call's key still reads back as the bytes
    that redis-py sent for the value of that call: later calls overwrite
    nothing. *)
Theorem stored_values_readable calls : ∀ w keys w',
  run_calls Cache.store cache_obj calls w = (Ok keys, w') →
  NoDup keys →
  ∀ i args kw key,
    calls !! i = Some (args, kw) → keys !! i = Some key →
    ∃ data vb,
      Cache.bind_data args kw = Ok data ∧ encode data = Ok vb
      ∧ Cache.get cache_obj key None w' = (Ok (PBytes vb), w').
Proof.
  induction calls as [|[args0 kw0] rest IH]; intros w keys w'; [done|].
  rewrite run_calls_cons.
  destruct (call Cache.store cache_obj args0 kw0 w) as [[r|e] w1] eqn:Hcall;
    [|done].
  destruct (run_calls Cache.store cache_obj rest w1) as [[rs|e] w2] eqn:Hrest;
    [|done].
  intros [= <- <-] Hnodup i args kw key Hi Hkey.
  apply NoDup_cons in Hnodup as [Hnew Hnodup].
  destruct i as [|i]; [|by apply (IH _ _ _ Hrest Hnodup i args kw key)].
  injection Hi as -> ->. injection Hkey as <-.
  apply Cache_store_ok in Hcall
    as (c & data & kb & vb & ib & ins & outs & Hc & Hlt & Hdata & Hkb & Hlen
        & Hvb & _ & _ & _ & -> & ->).
  exists data, vb. split; [done|]. split; [done|].
  destruct (uuid_key_fresh kb Hlen) as (Hk1 & Hk2 & Hk3).
  pose proof (counter_range _ _ _ Hc) as Hrange.
  destruct (stored_lookups c kb vb ib ins outs (db w) Hlen)
    as (_ & _ & _ & Hval); [lia|].
  rewrite (Cache_get_run _ _ kb) by auto using encode_PStr.
  unfold Redis.get.
  rewrite (run_calls_store_other _ _ _ _ kb Hrest) by
    (try done; intros s Hs Henc;
     by rewrite (utf8_encode_inj _ _ _ Henc Hkb) in Hs).
  cbn [db set_db]. by rewrite Hval.
Qed.

(** X12. What [store] keeps is the bytes redis-py sends for the value, and
    not its kind: on a database where the instrumentation can run,
    [get(store(v))] is that byte string, a decode function receives it
    whatever [v] was, and [get_str] decodes it; so [get_str(store(n))] for
    an integer [n] is its decimal text. *)
Theorem get_returns_encoding w v vb :
  instrumentable (db w) → encode v = Ok vb →
  ∃ key w',
    call Cache.store cache_obj [v] [] w = (Ok key, w')
    ∧ Cache.get cache_obj key None w' = (Ok (PBytes vb), w')
    ∧ (∀ fn, Cache.get cache_obj key (Some fn) w' = fn (PBytes vb) w')
    ∧ Cache.get_str cache_obj key w'
      = (PStr <$> of_option UnicodeDecodeError (utf8_decode vb), w')
    ∧ (∀ z, v = PInt z →
         Cache.get_str cache_obj key w' = (Ok (PStr (lit (Z_to_dec z))), w')).
Proof.
  intros ((c & Hc & Hlt) & [ins Hins] & [outs Houts]) Hvb.
  destruct (Cache_store_cases [v] [] w c ins outs eq_refl Hc Hlt Hins Houts)
    as [(Hb & _)|[(data & e & Hb & He & _)
                 |(data & kb & vb' & ib & Hb & Hvb' & Hkb & Hlen & _ & Hrun)]];
    [done|injection Hb as <-; congruence|].
  injection Hb as <-. assert (vb' = vb) as -> by congruence.
  pose proof (counter_range _ _ _ Hc) as Hrange.
  destruct (stored_lookups c kb vb ib ins outs (db w) Hlen)
    as (_ & _ & _ & Hval); [lia|].
  eexists _, _. split; [exact Hrun|].
  set (w' := set_db _ _).
  assert (∀ fn, Cache.get cache_obj (PStr (next_key w)) fn w' =
            match fn with
            | Some f => f (PBytes vb) w'
            | None => (Ok (PBytes vb), w')
            end) as Hget.
  { intros fn. rewrite (Cache_get_run _ _ kb) by auto using encode_PStr.
    unfold Redis.get. subst w'. cbn [db set_db]. by rewrite Hval. }
  assert (Cache.get_str cache_obj (PStr (next_key w)) w'
          = (PStr <$> of_option UnicodeDecodeError (utf8_decode vb), w')) as Hstr.
  { unfold Cache.get_str. by rewrite bind_run, Hget, lift_run. }
  split; [apply (Hget None)|]. split; [intros fn; apply (Hget (Some fn))|].
  split; [done|].
  intros z ->. rewrite Hstr. cbn [encode] in Hvb.
  destruct (utf8_encode (lit (Z_to_dec z))) as [b|] eqn:Hb; [|done].
  injection Hvb as ->. by rewrite (utf8_decode_encode _ _ Hb).
Qed.

(** ** Reading the instrumentation through the cache *)

Lemma counter_nonzero k d c :
  Redis.counter k d = Some c → c ≠ 0%Z →
  d !! k = Some (Redis.Str (Z_to_dec c)).
Proof.
  unfold Redis.counter. destruct (d !! k) as [[b|l]|]; [|done|congruence].
  by intros [-> _]%string2ll_Some.
Qed.

Lemma elements_nonempty k d l :
  Redis.elements k d = Some l → l ≠ [] → d !! k = Some (Redis.List l).
Proof.
  unfold Redis.elements. destruct (d !! k) as [[b|l']|]; congruence.
Qed.

(** X13. The count of [store] is an ordinary value of the cache: after
    [n ≥ 1] calls on a fresh [Cache], [get] of the qualified name is the
    decimal text of [n] and [get_int] is [n]. The two logs are lists, which
    [get] cannot read: it raises the WRONGTYPE error. *)
Theorem call_count_readable w0 self w calls keys w' :
  Cache.__init__ w0 = (Ok self, w) →
  run_calls Cache.store self calls w = (Ok keys, w') →
  calls ≠ [] →
  Cache.get self (PStr (qualname Cache.store)) None w'
    = (Ok (PBytes (Z_to_dec (Z.of_nat (length calls)))), w')
  ∧ Cache.get_int self (PStr (qualname Cache.store)) w'
    = (Ok (PInt (Z.of_nat (length calls))), w')
  ∧ Cache.get self (PStr (qualname Cache.store ++ lit ":inputs")) None w'
    = (Raise (ResponseError WrongType), w')
  ∧ Cache.get self (PStr (qualname Cache.store ++ lit ":outputs")) None w'
    = (Raise (ResponseError WrongType), w').
Proof.
  intros Hinit Hrun Hcalls.
  apply fresh_cache in Hinit as [-> ->].
  destruct (empty_db_reads counter_key) as [Hc _].
  destruct (empty_db_reads inputs_key) as [_ Hins].
  destruct (empty_db_reads outputs_key) as [_ Houts].
  destruct (run_calls_store _ (set_db ∅ w0) _ _ _ _ _ Hc Hins Houts Hrun)
    as (ins & outs & Hc' & Hins' & Houts' & Hfi & Hfo).
  simpl in Hc', Hins', Houts'.
  pose proof (Forall2_length _ _ _ Hfi) as Hli.
  pose proof (Forall2_length _ _ _ Hfo) as Hlo.
  pose proof (run_calls_length _ _ _ _ _ _ Hrun) as Hlk.
  assert (length calls ≠ 0%nat) as Hn by (by destruct calls).
  apply counter_nonzero in Hc'; [|lia].
  apply elements_nonempty in Hins'; [|intros ->; simpl in Hli; lia].
  apply elements_nonempty in Houts'; [|intros ->; simpl in Hlo; lia].
  assert (Cache.get cache_obj (PStr (qualname Cache.store)) None w'
          = (Ok (PBytes (Z_to_dec (Z.of_nat (length calls)))), w')) as Hget.
  { rewrite (Cache_get_run _ _ counter_key) by done.
    unfold Redis.get. by rewrite Hc'. }
  split; [done|]. split; [|split].
  - unfold Cache.get_int. rewrite bind_run, Hget, lift_run. cbn [py_int].
    by rewrite int_of_bytes_Z_to_dec.
  - rewrite (Cache_get_run _ _ inputs_key) by done.
    unfold Redis.get. by rewrite Hins'.
  - rewrite (Cache_get_run _ _ outputs_key) by done.
    unfold Redis.get. by rewrite Houts'.
Qed.

(** ** What [replay] prints *)

(** The entries that [store] logs decode to the text of the arguments
    and to the key. *)
Lemma logged_lines name : ∀ (calls : list (list pyval * kwargs)) ins keys outs,
  Forall2 (λ c i, utf8_encode (py_str (PTuple c.1)) = Some i) calls ins →
  Forall2 (λ key o, ∃ s, key = PStr s ∧ utf8_encode s = Some o) keys outs →
  mapM (replay_line name) (zip ins outs)
    = Some (zip_with (λ c key, call_line name c.1 key) calls keys).
Proof.
  intros calls ins keys outs Hin. revert keys outs.
  induction Hin as [|[args kw] ib calls ins Hib _ IH]; intros keys outs Hout.
  - by destruct Hout.
  - destruct Hout as [|key ob keys outs (s & -> & Hob) Hout]; [done|].
    apply mapM_Some. simpl. constructor.
    + unfold replay_line, call_line. simpl.
      by rewrite (utf8_decode_encode _ _ Hib), (utf8_decode_encode _ _ Hob).
    + apply mapM_Some. by apply IH.
Qed.

(** X14. After any run of calls of [store] on a fresh [Cache] that all
    returned, [replay(Cache.store)] prints the header with the number of
    calls and the line of each call, in order. *)
Lemma replay_after_stores w0 self w calls keys w' :
  Cache.__init__ w0 = (Ok self, w) →
  run_calls Cache.store self calls w = (Ok keys, w') →
  replay Cache.store w' =
    (Ok tt,
     World (db w')
       (stdout w' ++ replay_header (lit "Cache.store") (length calls)
          :: zip_with (λ c key, call_line (lit "Cache.store") c.1 key)
               calls keys)
       (entropy w') (drawn w')).
Proof.
  intros Hinit Hrun.
  apply fresh_cache in Hinit as [-> ->].
  destruct (empty_db_reads counter_key) as [Hc _].
  destruct (empty_db_reads inputs_key) as [_ Hins].
  destruct (empty_db_reads outputs_key) as [_ Houts].
  destruct (run_calls_store _ (set_db ∅ w0) _ _ _ _ _ Hc Hins Houts Hrun)
    as (ins & outs & _ & Hins' & Houts' & Hfi & Hfo).
  simpl in Hins', Houts'.
  pose proof (logged_lines (lit "Cache.store") _ _ _ _ Hfi Hfo) as Hlines.
  rewrite (replay_ok Cache.store w' inputs_key outputs_key ins outs _
             inputs_key_enc outputs_key_enc Hins' Houts' Hlines).
  by rewrite <- (Forall2_length _ _ _ Hfi).
Qed.

(** The loop of [replay] reads nothing but the pairs: what it prints and
    how it ends is the same after any earlier output. *)
Lemma replay_lines_stdout name pairs : ∀ w,
  replay_lines name pairs w =
    ((replay_lines name pairs (with_stdout [] w)).1,
     with_stdout
       (stdout w ++ stdout (replay_lines name pairs (with_stdout [] w)).2) w).
Proof.
  induction pairs as [|[input output] rest IH]; intros w.
  - cbn [replay_lines]. rewrite !ret_run. cbn [fst snd stdout with_stdout].
    rewrite app_nil_r. by destruct w.
  - rewrite !replay_lines_cons.
    destruct (utf8_decode input) as [i|].
    2: { cbn [fst snd stdout with_stdout]. rewrite app_nil_r. by destruct w. }
    destruct (utf8_decode output) as [o|].
    2: { cbn [fst snd stdout with_stdout]. rewrite app_nil_r. by destruct w. }
    cbn [db stdout entropy drawn with_stdout].
    rewrite IH. rewrite (IH (World _ ([] ++ _) _ _)).
    cbn [fst snd db stdout entropy drawn with_stdout].
    by rewrite app_nil_l, <- app_assoc.
Qed.

Lemma client_lrange_with_stdout name out w :
  client_lrange name 0 (-1) (with_stdout out w)
  = ((client_lrange name 0 (-1) w).1, with_stdout out w).
Proof.
  unfold client_lrange. rewrite !bind_run, !lift_run.
  destruct (encode name) as [k|e]; [|done].
  rewrite !command_run. cbn [db with_stdout].
  destruct (Redis.lrange k 0 (-1) (db w)); by rewrite set_db_same.
Qed.

Lemma client_lrange_world name w :
  client_lrange name 0 (-1) w = ((client_lrange name 0 (-1) w).1, w).
Proof.
  destruct (client_lrange name 0 (-1) w) as [r w'] eqn:Hr.
  by apply client_lrange_stdout in Hr as ->.
Qed.

(** [replay] as a whole: its outcome and the lines it prints depend on
    the database alone. *)
Lemma replay_stdout m w :
  replay m w =
    ((replay m (with_stdout [] w)).1,
     with_stdout (stdout w ++ stdout (replay m (with_stdout [] w)).2) w).
Proof.
  unfold replay. cbv zeta. rewrite !bind_run.
  rewrite client_lrange_with_stdout, (client_lrange_world _ w).
  destruct (client_lrange _ 0 (-1) w).1 as [ins|e]; cbn [fst snd].
  2: { cbn [stdout with_stdout]. rewrite app_nil_r. by destruct w. }
  rewrite !bind_run.
  rewrite client_lrange_with_stdout, (client_lrange_world _ w).
  destruct (client_lrange _ 0 (-1) w).1 as [outs|e]; cbn [fst snd].
  2: { cbn [stdout with_stdout]. rewrite app_nil_r. by destruct w. }
  rewrite !bind_run, !print_run.
  cbn [db stdout entropy drawn with_stdout].
  rewrite replay_lines_stdout.
  rewrite (replay_lines_stdout _ _ (World _ ([] ++ _) _ _)).
  cbn [fst snd db stdout entropy drawn with_stdout].
  by rewrite app_nil_l, <- app_assoc.
Qed.

(** X15. [replay] changes nothing that it reads: the database, the entropy
    and the number of keys drawn stay, the output only grows, and a second
    [replay] ends as the first did, by returning or with the same exception,
    after printing the same lines again. *)
Theorem replay_repeatable m w r w1 :
  replay m w = (r, w1) →
  ∃ lines,
    w1 = World (db w) (stdout w ++ lines) (entropy w) (drawn w)
    ∧ replay m w1
      = (r, World (db w) (stdout w ++ lines ++ lines) (entropy w) (drawn w)).
Proof.
  rewrite replay_stdout. intros [= <- <-].
  exists (stdout (replay m (with_stdout [] w)).2). split; [done|].
  rewrite replay_stdout. cbn [db stdout entropy drawn with_stdout].
  by rewrite <- app_assoc.
Qed.

(** X16. When a log key of the name holds a string instead of a list,
    [replay] raises the WRONGTYPE error before it prints anything, the
    header included. *)
Theorem replay_wrong_type m w ik ok :
  utf8_encode (qualname m ++ lit ":inputs") = Some ik →
  utf8_encode (qualname m ++ lit ":outputs") = Some ok →
  Redis.elements ik (db w) = None ∨ Redis.elements ok (db w) = None →
  replay m w = (Raise (ResponseError WrongType), w).
Proof.
  intros Hik Hok Hbad. unfold replay. cbv zeta.
  rewrite bind_run, (client_lrange_run _ ik) by auto using encode_PStr.
  destruct (Redis.elements ik (db w)) as [ins|]; [|done].
  rewrite bind_run, (client_lrange_run _ ok) by auto using encode_PStr.
  destruct Hbad as [Hbad|Hbad]; [done|by rewrite Hbad].
Qed.

Lemma replay_lines_app name pre : ∀ rest lines w,
  mapM (replay_line name) pre = Some lines →
  replay_lines name (pre ++ rest) w =
    replay_lines name rest (with_stdout (stdout w ++ lines) w).
Proof.
  induction pre as [|[input output] pre IH]; intros rest lines w Hlines.
  - injection Hlines as <-. rewrite app_nil_r, app_nil_l. by destruct w.
  - rewrite <- app_comm_cons, replay_lines_cons. apply mapM_Some in Hlines.
    inversion Hlines as [|? line ? ls Hline Hrest]; subst.
    unfold replay_line in Hline. cbn [fst snd] in Hline.
    destruct (utf8_decode input) as [i|]; [|done].
    destruct (utf8_decode output) as [o|]; [|done].
    injection Hline as <-.
    rewrite (IH rest ls) by (by apply mapM_Some).
    cbn [db stdout entropy drawn with_stdout]. by rewrite <- app_assoc.
Qed.

(** X17. [replay] stops at the first pair with an entry that is not UTF-8:
    it raises UnicodeDecodeError there, and the header and the lines of the
    pairs before it are already printed. *)
Theorem replay_stops_at_bad_entry m w ik ok ins outs pre bad post lines :
  utf8_encode (qualname m ++ lit ":inputs") = Some ik →
  utf8_encode (qualname m ++ lit ":outputs") = Some ok →
  Redis.elements ik (db w) = Some ins →
  Redis.elements ok (db w) = Some outs →
  zip ins outs = pre ++ bad :: post →
  mapM (replay_line (qualname m)) pre = Some lines →
  replay_line (qualname m) bad = None →
  replay m w =
    (Raise UnicodeDecodeError,
     World (db w)
           (stdout w ++ replay_header (qualname m) (length ins) :: lines)
           (entropy w) (drawn w)).
Proof.
  intros Hik Hok Hins Houts Hzip Hlines Hbad. unfold replay. cbv zeta.
  rewrite bind_run, (client_lrange_run _ ik) by auto using encode_PStr.
  rewrite Hins, bind_run, (client_lrange_run _ ok) by auto using encode_PStr.
  rewrite Houts, bind_run, print_run, Hzip.
  rewrite (replay_lines_app _ _ _ lines) by done.
  destruct bad as [input output]. rewrite replay_lines_cons.
  unfold replay_line in Hbad. cbn [fst snd] in Hbad.
  cbn [db stdout entropy drawn with_stdout]. rewrite <- app_assoc.
  destruct (utf8_decode input) as [i|]; [|done].
  by destruct (utf8_decode output) as [o|].
Qed.

(** ** The typed readers and [get] with a decode function *)

(** X18. On a key that exists, [get_int(key)] is [get(key, int)] and
    [get_str(key)] is [get(key, lambda d: d.decode("utf-8"))], errors
    included. On a missing key they part: [get_int] and [get_str] return
    [None], while [get] hands [None] to the function, so that [int] raises
    TypeError and [decode] AttributeError. *)
Theorem typed_readers_and_decoders self key k w :
  redis_attr self = Some RedisClient → encode key = Ok k →
  (db w !! k ≠ None →
     Cache.get_int self key w
       = Cache.get self key (Some (λ d, lift (py_int d))) w
     ∧ Cache.get_str self key w
       = Cache.get self key (Some (λ d, lift (py_decode_utf8 d))) w)
  ∧ (db w !! k = None →
     Cache.get_int self key w = (Ok PNone, w)
     ∧ Cache.get self key (Some (λ d, lift (py_int d))) w
       = (Raise TypeError, w)
     ∧ Cache.get_str self key w = (Ok PNone, w)
     ∧ Cache.get self key (Some (λ d, lift (py_decode_utf8 d))) w
       = (Raise AttributeError, w)).
Proof.
  intros Hr Hk. unfold Cache.get_int, Cache.get_str.
  rewrite !bind_run, !(Cache_get_run _ _ k) by done. unfold Redis.get.
  split.
  - intros Hsome. by destruct (db w !! k) as [[b|l]|].
  - by intros ->.
Qed.

(** ** The report after failed calls *)

(** Entries that are the UTF-8 of some text make lines. *)
Lemma replay_lines_of_texts name : ∀ ins outs,
  Forall (λ i, ∃ s, utf8_encode s = Some i) ins →
  Forall (λ o, ∃ s, utf8_encode s = Some o) outs →
  ∃ lines, mapM (replay_line name) (zip ins outs) = Some lines
           ∧ length lines = (length ins `min` length outs)%nat.
Proof.
  intros ins outs Hins. revert outs.
  induction Hins as [|i ins [s Hs] _ IH]; intros outs Houts.
  - by exists [].
  - destruct Houts as [|o outs [t Ht] Houts]; [by exists []|].
    destruct (IH outs Houts) as (lines & Hlines & Hlen).
    exists ((name ++ lit "(*" ++ s ++ lit ") -> " ++ t) :: lines).
    split; [|simpl; lia].
    apply mapM_Some. simpl. constructor; [|by apply mapM_Some].
    unfold replay_line. simpl.
    by rewrite (utf8_decode_encode _ _ Hs), (utf8_decode_encode _ _ Ht).
Qed.

(** X19. The number in the header of [replay] is the length of the
    inputs log, not the counter: after any run of attempts on a fresh
    [Cache], [replay(Cache.store)] raises nothing and reports as many
    calls, and prints as many lines, as attempts returned, while the
    counter holds the number of the attempts that were bound to the
    wrapper (those without a keyword argument named [self]), failed ones
    included. *)
Theorem replay_reports_returned_calls w0 self w calls rs w' :
  Cache.__init__ w0 = (Ok self, w) →
  (Z.of_nat (length calls) ≤ Redis.int64_max)%Z →
  run_attempts Cache.store self calls w = (rs, w') →
  Redis.counter counter_key (db w')
    = Some (Z.of_nat (length (bound_calls calls)))
  ∧ ∃ lines,
      replay Cache.store w' =
        (Ok tt,
         World (db w')
           (stdout w'
            ++ replay_header (lit "Cache.store")
                 (length (List.filter is_Ok rs)) :: lines)
           (entropy w') (drawn w'))
      ∧ length lines = length (List.filter is_Ok rs).
Proof.
  intros Hinit Hmax Hrun.
  apply fresh_cache in Hinit as [-> ->].
  destruct (empty_db_reads counter_key) as [Hc _].
  destruct (empty_db_reads inputs_key) as [_ Hins].
  destruct (empty_db_reads outputs_key) as [_ Houts].
  destruct (run_attempts_store calls (set_db ∅ w0) _ _ 0%Z [] [] Hc Hmax
              Hins Houts Hrun)
    as (ins & outs & Hc' & Hins' & Houts' & Hl & Hli & Hdi & Hlo).
  split; [done|]. simpl in Hins', Houts'.
  assert (Forall (λ o, ∃ s, utf8_encode s = Some o) outs) as Hdo.
  { clear -Hlo. induction Hlo as [|r o rs' outs' (s & _ & Hs) _ IH];
      constructor; [by exists s|done]. }
  destruct (replay_lines_of_texts (lit "Cache.store") ins outs Hdi Hdo)
    as (lines & Hlines & Hlen).
  exists lines.
  rewrite (replay_ok Cache.store w' inputs_key outputs_key ins outs lines
             inputs_key_enc outputs_key_enc Hins' Houts' Hlines).
  rewrite Hli. split; [done|].
  rewrite Hlen, Hli, <- (Forall2_length _ _ _ Hlo). lia.
Qed.

End Properties.

(** * The properties on concrete runs *)

Lemma tiny_float_repr_roundtrip : float_repr_roundtrip.
Proof. intros [|]; eexists; split; reflexivity. Qed.

Lemma sample_world_instrumentable : instrumentable (db sample_world).
Proof. by apply empty_instrumentable. Qed.

(** [get_int(store(42))] is [42] and [get_str(store("hello"))] is
    ["hello"]. *)
Lemma store_get_roundtrip_witness :
  (float_repr_roundtrip ∧ instrumentable (db sample_world)
   ∧ storable (PInt 42)
   ∧ ∃ key w',
       call Cache.store cache_obj [PInt 42] [] sample_world = (Ok key, w')
       ∧ Cache.get cache_obj key (decoder (PInt 42)) w' = (Ok (PInt 42), w')
       ∧ Cache.get_int cache_obj key w' = (Ok (PInt 42), w'))
  ∧ (storable (PStr (lit "hello"))
     ∧ ∃ key w',
       call Cache.store cache_obj [PStr (lit "hello")] [] sample_world
         = (Ok key, w')
       ∧ Cache.get cache_obj key (decoder (PStr (lit "hello"))) w'
         = (Ok (PStr (lit "hello")), w')
       ∧ Cache.get_str cache_obj key w' = (Ok (PStr (lit "hello")), w')).
Proof.
  split.
  - split; [exact tiny_float_repr_roundtrip|].
    split; [exact sample_world_instrumentable|].
    split; [exact I|].
    apply (store_get_roundtrip sample_world (PInt 42));
      [exact tiny_float_repr_roundtrip | exact sample_world_instrumentable
      | exact I].
  - split; [by eexists|].
    apply (store_get_roundtrip sample_world (PStr (lit "hello")));
      [exact tiny_float_repr_roundtrip | exact sample_world_instrumentable
      | by eexists].
Defined.

(** The scenario of two calls: the counter reads 2 and the logs hold
    [('foo',)], [(b'bar',)] and the two keys. *)
Lemma store_counter_and_history_witness :
  Cache.__init__ sample_world = (Ok cache_obj, sample_world)
  ∧ run_calls Cache.store cache_obj sample_calls sample_world
    = (Ok [PStr (lit sample_key1); PStr (lit sample_key2)], sample_world_after)
  ∧ encode (PStr (qualname Cache.store)) = Ok counter_key
  ∧ ∃ ins outs,
    Redis.counter counter_key (db sample_world_after)
      = Some (Z.of_nat (length sample_calls))
    ∧ Redis.elements inputs_key (db sample_world_after) = Some ins
    ∧ length ins = length sample_calls
    ∧ Redis.elements outputs_key (db sample_world_after) = Some outs
    ∧ length outs = length sample_calls
    ∧ ∀ i args kw key,
        sample_calls !! i = Some (args, kw) →
        [PStr (lit sample_key1); PStr (lit sample_key2)] !! i = Some key →
        ∃ ib ob,
          utf8_encode (py_str (PTuple args)) = Some ib ∧ ins !! i = Some ib
          ∧ encode key = Ok ob ∧ outs !! i = Some ob.
Proof.
  assert (Cache.__init__ sample_world = (Ok cache_obj, sample_world)) as Hinit
    by reflexivity.
  assert (run_calls Cache.store cache_obj sample_calls sample_world
          = (Ok [PStr (lit sample_key1); PStr (lit sample_key2)],
             sample_world_after)) as Hrun
    by reflexivity.
  split; [exact Hinit|]. split; [exact Hrun|].
  exact (store_counter_and_history sample_world cache_obj sample_world
           sample_calls _ sample_world_after Hinit Hrun).
Defined.

(** A call without arguments fails in the body with TypeError, after the
    increment: the counter reads 1.  A call whose first append fails with
    WRONGTYPE has stored its value and leaves the counter at 1 as well.
    The call [store(1, self=2)] is not counted. *)
Lemma store_counts_bound_attempts_witness :
  (Redis.counter counter_key (db sample_world) = Some 0%Z
   ∧ (0 < Redis.int64_max)%Z
   ∧ call Cache.store cache_obj [] [] sample_world
     = (Raise TypeError,
        set_db (<[counter_key := Redis.Str "1"]> ∅) sample_world)
   ∧ Redis.counter counter_key (<[counter_key := Redis.Str "1"]> ∅)
     = Some 1%Z)
  ∧ (Redis.counter counter_key (db sample_world_clash) = Some 0%Z
     ∧ call Cache.store cache_obj [PStr (lit "foo")] [] sample_world_clash
       = (Raise (ResponseError WrongType),
          World (<[sample_key1 := Redis.Str "foo"]>
                  (<[counter_key := Redis.Str "1"]>
                    (<[inputs_key := Redis.Str "x"]> ∅)))
                [] (entropy sample_world) 1)
     ∧ Redis.counter counter_key
         (<[sample_key1 := Redis.Str "foo"]>
           (<[counter_key := Redis.Str "1"]>
             (<[inputs_key := Redis.Str "x"]> ∅)))
       = Some 1%Z)
  ∧ (keyword_self self_keyword = true
     ∧ ∀ r w', call Cache.store cache_obj [PInt 1] self_keyword sample_world
               = (r, w') →
               r = Raise TypeError ∧ w' = sample_world).
Proof.
  assert (Redis.counter counter_key (db sample_world) = Some 0%Z) as Hc
    by reflexivity.
  assert (0 < Redis.int64_max)%Z as Hlt by reflexivity.
  assert (call Cache.store cache_obj [] [] sample_world
          = (Raise TypeError,
             set_db (<[counter_key := Redis.Str "1"]> ∅) sample_world))
    as Hcall by reflexivity.
  assert (Redis.counter counter_key (db sample_world_clash) = Some 0%Z) as Hc'
    by reflexivity.
  assert (call Cache.store cache_obj [PStr (lit "foo")] [] sample_world_clash
          = (Raise (ResponseError WrongType),
             World (<[sample_key1 := Redis.Str "foo"]>
                     (<[counter_key := Redis.Str "1"]>
                       (<[inputs_key := Redis.Str "x"]> ∅)))
                   [] (entropy sample_world) 1))
    as Hcall' by reflexivity.
  split; [|split].
  - split; [exact Hc|]. split; [exact Hlt|]. split; [exact Hcall|].
    exact (proj2 (proj1 (proj2 (store_counts_bound_attempts
                                  [] [] sample_world 0 _ _ Hc Hlt Hcall))
                    eq_refl)).
  - split; [exact Hc'|]. split; [exact Hcall'|].
    exact (proj2 (proj1 (proj2 (store_counts_bound_attempts
                                  [PStr (lit "foo")] [] sample_world_clash 0
                                  _ _ Hc' Hlt Hcall'))
                    eq_refl)).
  - split; [reflexivity|]. intros r w' Hrun.
    exact (proj2 (proj2 (store_counts_bound_attempts
                           [PInt 1] self_keyword sample_world 0 r w'
                           Hc Hlt Hrun))
             eq_refl).
Defined.

(** C3, as stated, fails for a call with a keyword argument named
    [self]: the call [store(1, self=2)] raises TypeError while it is
    bound to the counting wrapper and the counter, which read 0 before,
    still reads 0.  So it is not true that every call of [store] whose
    increment could succeed leaves the counter one higher. *)
Lemma store_self_keyword_not_counted :
  Redis.counter counter_key (db sample_world) = Some 0%Z
  ∧ call Cache.store cache_obj [PInt 1] self_keyword sample_world
    = (Raise TypeError, sample_world)
  ∧ ¬ (∀ args kw w c r w',
         Redis.counter counter_key (db w) = Some c →
         (c < Redis.int64_max)%Z →
         call Cache.store cache_obj args kw w = (r, w') →
         Redis.counter counter_key (db w') = Some (c + 1)%Z).
Proof.
  split; [reflexivity|]. split; [reflexivity|].
  intros Hall.
  specialize (Hall [PInt 1] self_keyword sample_world 0%Z
                   (Raise TypeError) sample_world eq_refl eq_refl eq_refl).
  discriminate Hall.
Qed.


(** The history wrapper around the body of [store], called with 42. *)
Lemma call_history_appends_witness :
  is_Cache cache_obj = true
  ∧ redis_attr cache_obj = Some RedisClient
  ∧ call Cache.store_body cache_obj [PInt 42] [] sample_world
    = (Ok (PStr (lit sample_key1)),
       World (<[sample_key1 := Redis.Str "42"]> ∅) []
             (entropy sample_world) 1)
  ∧ call (call_history Cache.store_body) cache_obj [PInt 42] [] sample_world
    = (Ok (PStr (lit sample_key1)),
       World (<[outputs_key := Redis.List [sample_key1]]>
               (<[inputs_key := Redis.List ["(42,)"]]>
                 (<[sample_key1 := Redis.Str "42"]> ∅)))
             [] (entropy sample_world) 1).
Proof.
  assert (call Cache.store_body cache_obj [PInt 42] [] sample_world
          = (Ok (PStr (lit sample_key1)),
             World (<[sample_key1 := Redis.Str "42"]> ∅) []
                   (entropy sample_world) 1)) as Hm by reflexivity.
  split; [reflexivity|]. split; [reflexivity|]. split; [exact Hm|].
  exact (proj1 (proj2 (call_history_appends Cache.store_body cache_obj
                         [PInt 42] [] sample_world _ _
                         eq_refl eq_refl Hm))
           inputs_key outputs_key "(42,)" sample_key1 [] []
           eq_refl eq_refl eq_refl eq_refl eq_refl eq_refl).
Defined.

(** On an object of another class the decorated body of [store] is the
    bare body.  On a [Cache] without [_redis], a method that prints a
    line shows where the guard raises: under [count_calls] nothing is
    printed, under [call_history] the line is printed and the
    AttributeError replaces the result. *)
Lemma decorators_skip_unrecognized_witness :
  ((is_Cache other_obj = false ∨ ∃ v, redis_attr other_obj = Some (NotRedis v))
   ∧ call (count_calls Cache.store_body) other_obj [PInt 1] [] sample_world
     = call Cache.store_body other_obj [PInt 1] [] sample_world
   ∧ call (call_history Cache.store_body) other_obj [PInt 1] [] sample_world
     = call Cache.store_body other_obj [PInt 1] [] sample_world
   ∧ call (count_calls (call_history Cache.store_body)) other_obj [PInt 1] []
       sample_world
     = call Cache.store_body other_obj [PInt 1] [] sample_world)
  ∧ (is_Cache cache_without_handle = true
     ∧ redis_attr cache_without_handle = None
     ∧ call prints_hello cache_without_handle [] [] sample_world
       = (Ok PNone, World ∅ [lit "hello"] (entropy sample_world) 0)
     ∧ call (count_calls prints_hello) cache_without_handle [] [] sample_world
       = (Raise AttributeError, sample_world)
     ∧ call (call_history prints_hello) cache_without_handle [] []
         sample_world
       = (Raise AttributeError,
          World ∅ [lit "hello"] (entropy sample_world) 0)).
Proof.
  split.
  - split; [left; reflexivity|].
    exact (proj1 (decorators_skip_unrecognized Cache.store_body other_obj
                    [PInt 1] [] sample_world)
             (or_introl eq_refl)).
  - split; [reflexivity|]. split; [reflexivity|]. split; [reflexivity|].
    exact (proj2 (decorators_skip_unrecognized prints_hello
                    cache_without_handle [] [] sample_world)
             eq_refl eq_refl).
Defined.


(** C5, as stated, fails for a [Cache] without a [_redis] attribute: the
    guard of either decorator raises AttributeError, the counting wrapper
    before the method runs and the history wrapper in place of its
    result, while the bare method returns [None]. *)
Lemma decorators_raise_without_handle :
  is_Cache cache_without_handle = true
  ∧ redis_attr cache_without_handle = None
  ∧ call returns_None cache_without_handle [] [] sample_world
    = (Ok PNone, sample_world)
  ∧ call (count_calls returns_None) cache_without_handle [] [] sample_world
    = (Raise AttributeError, sample_world)
  ∧ call (call_history returns_None) cache_without_handle [] [] sample_world
    = (Raise AttributeError, sample_world)
  ∧ call (count_calls returns_None) cache_without_handle [] [] sample_world
    ≠ call returns_None cache_without_handle [] [] sample_world.
Proof. repeat split; try reflexivity. discriminate. Qed.

(** A key that was never stored. *)
Lemma get_missing_key_witness :
  redis_attr cache_obj = Some RedisClient
  ∧ encode (PStr (lit "missing")) = Ok "missing"
  ∧ db sample_world_after !! "missing" = None
  ∧ Cache.get cache_obj (PStr (lit "missing")) None sample_world_after
    = (Ok PNone, sample_world_after)
  ∧ ∀ fn, Cache.get cache_obj (PStr (lit "missing")) (Some fn)
            sample_world_after
          = fn PNone sample_world_after.
Proof.
  split; [reflexivity|]. split; [reflexivity|]. split; [reflexivity|].
  exact (get_missing_key cache_obj (PStr (lit "missing")) "missing"
           sample_world_after eq_refl eq_refl eq_refl).
Defined.

(** The first key of the scenario reads back as the text it holds; its
    value is not an integer, so [get_int] raises ValueError. *)
Lemma get_str_get_int_witness :
  redis_attr cache_obj = Some RedisClient
  ∧ encode (PStr (lit sample_key1)) = Ok sample_key1
  ∧ db sample_world_after !! sample_key1 = Some (Redis.Str "foo")
  ∧ Cache.get_str cache_obj (PStr (lit sample_key1)) sample_world_after
    = (Ok (PStr (lit "foo")), sample_world_after)
  ∧ Cache.get_int cache_obj (PStr (lit sample_key1)) sample_world_after
    = (Raise ValueError, sample_world_after).
Proof.
  split; [reflexivity|]. split; [reflexivity|]. split; [reflexivity|].
  destruct (proj2 (get_str_get_int cache_obj (PStr (lit sample_key1))
                     sample_key1 sample_world_after eq_refl eq_refl)
              "foo" eq_refl) as (_ & Hint & Hstr & _).
  split; [exact (Hstr (lit "foo") eq_refl) | exact Hint].
Defined.

(** The report of the scenario. *)
Lemma replay_prints_history_witness :
  utf8_encode (qualname Cache.store ++ lit ":inputs") = Some inputs_key
  ∧ utf8_encode (qualname Cache.store ++ lit ":outputs") = Some outputs_key
  ∧ Redis.elements inputs_key (db sample_world_after)
    = Some ["('foo',)"; "(b'bar',)"]
  ∧ Redis.elements outputs_key (db sample_world_after)
    = Some [sample_key1; sample_key2]
  ∧ mapM (replay_line (qualname Cache.store))
         (zip ["('foo',)"; "(b'bar',)"] [sample_key1; sample_key2])
    = Some [lit "Cache.store(*('foo',)) -> 01234567-89ab-4def-8123-456789abcdef";
            lit "Cache.store(*(b'bar',)) -> 01235567-89ab-4def-8123-456789abcdef"]
  ∧ replay Cache.store sample_world_after
    = (Ok tt,
       World (db sample_world_after)
         [lit "Cache.store was called 2 times:";
          lit "Cache.store(*('foo',)) -> 01234567-89ab-4def-8123-456789abcdef";
          lit "Cache.store(*(b'bar',)) -> 01235567-89ab-4def-8123-456789abcdef"]
         (entropy sample_world_after) (drawn sample_world_after)).
Proof.
  split; [reflexivity|]. split; [reflexivity|]. split; [reflexivity|].
  split; [reflexivity|]. split; [reflexivity|].
  exact (proj1 (replay_prints_history Cache.store sample_world_after
                  inputs_key outputs_key
                  ["('foo',)"; "(b'bar',)"] [sample_key1; sample_key2] _
                  eq_refl eq_refl eq_refl eq_refl eq_refl)).
Defined.

(** C8, as stated, fails in a state that the decorators themselves
    produce: after one recorded call of a method that returned the byte
    0xFF, [replay] prints the header and then raises UnicodeDecodeError
    instead of printing the line of the recorded call.  It also fails
    when a log key holds a plain string: LRANGE answers WRONGTYPE and
    nothing is printed. *)
Lemma replay_raises_on_undecodable_entry :
  call (call_history returns_byte) cache_obj [] [] sample_world
    = (Ok (PBytes (String "255"%char "")), sample_world_bad)
  ∧ Redis.elements "g:inputs" (db sample_world_bad) = Some ["()"]
  ∧ Redis.elements "g:outputs" (db sample_world_bad)
    = Some [String "255"%char ""]
  ∧ replay returns_byte sample_world_bad
    = (Raise UnicodeDecodeError,
       World (db sample_world_bad) [lit "g was called 1 times:"]
             (entropy sample_world_bad) (drawn sample_world_bad))
  ∧ (¬ ∃ w2, replay returns_byte sample_world_bad = (Ok tt, w2))
  ∧ replay Cache.store sample_world_clash
    = (Raise (ResponseError WrongType), sample_world_clash).
Proof.
  repeat split. intros [w2 Hw2]. discriminate Hw2.
Qed.

(** The call [store(data="foo")] stores "foo" and logs the empty tuple;
    the call [h(self=2)] of a decorated method raises TypeError and
    leaves the world as it was. *)
Lemma kwargs_forwarded_not_recorded_witness :
  is_Cache cache_obj = true
  ∧ redis_attr cache_obj = Some RedisClient
  ∧ call Cache.store cache_obj [] [(lit "data", PStr (lit "foo"))]
      sample_world
    = (Ok (PStr (lit sample_key1)),
       World (<[outputs_key := Redis.List [sample_key1]]>
               (<[inputs_key := Redis.List ["()"]]>
                 (<[sample_key1 := Redis.Str "foo"]>
                   (<[counter_key := Redis.Str "1"]> ∅))))
             [] (entropy sample_world) 1)
  ∧ keyword_self self_keyword = true
  ∧ call (count_calls (call_history prints_hello)) cache_obj [] self_keyword
      sample_world
    = (Raise TypeError, sample_world).
Proof.
  split; [reflexivity|]. split; [reflexivity|]. split.
  - exact (proj2 (proj2 (kwargs_forwarded_not_recorded Cache.store_body
                           cache_obj [] [] sample_world eq_refl eq_refl))
             (PStr (lit "foo")) 0%Z sample_key1 "foo" [] []
             eq_refl eq_refl eq_refl eq_refl eq_refl eq_refl).
  - split; [reflexivity|].
    exact (proj1 (proj2 (kwargs_forwarded_not_recorded prints_hello
                           cache_obj [] self_keyword sample_world
                           eq_refl eq_refl))
             eq_refl).
Defined.

(** C10, as stated, fails for a keyword argument named [self]: the
    decorated call [h(self=2)] is not forwarded to the method, whose line
    is not printed, and is neither counted nor logged.  The name of a
    keyword argument does affect the counter: [store(1, x=2)] is counted
    before [store] refuses the keyword, [store(1, self=2)] is not.  So
    the stacked wrappers are not, for every keyword arguments, the
    increment followed by the forwarded call and the two appends. *)
Lemma self_keyword_not_forwarded :
  call (count_calls (call_history prints_hello)) cache_obj [] self_keyword
    sample_world
  = (Raise TypeError, sample_world)
  ∧ call Cache.store cache_obj [PInt 1] self_keyword sample_world
    = (Raise TypeError, sample_world)
  ∧ call Cache.store cache_obj [PInt 1] [(lit "x", PInt 2)] sample_world
    = (Raise TypeError,
       set_db (<[counter_key := Redis.Str "1"]> ∅) sample_world)
  ∧ ¬ (∀ m self args kw w,
         is_Cache self = true → redis_attr self = Some RedisClient →
         call (count_calls (call_history m)) self args kw w =
           (client_incr (PStr (qualname m));;
            r ← call m self args kw;
            client_rpush (PStr (qualname m ++ lit ":inputs"))
                         (PStr (py_str (PTuple args)));;
            client_rpush (PStr (qualname m ++ lit ":outputs")) r;;
            mret r) w).
Proof.
  split; [reflexivity|]. split; [reflexivity|]. split; [reflexivity|].
  intros Hall.
  specialize (Hall prints_hello cache_obj [] self_keyword sample_world
                   eq_refl eq_refl).
  pose proof (f_equal (λ p, db p.2 !! "h") Hall) as Hdb.
  discriminate Hdb.
Qed.


(** ** The further properties on concrete runs *)

(** Reading a stored key, a missing key and a log in the world of the
    scenario. *)
Lemma readers_leave_world_witness :
  redis_attr cache_obj = Some RedisClient
  ∧ (Cache.get cache_obj (PStr (lit sample_key1)) None sample_world_after).2
    = sample_world_after
  ∧ (Cache.get_str cache_obj (PStr (lit sample_key1)) sample_world_after).2
    = sample_world_after
  ∧ (Cache.get_int cache_obj (PStr (lit sample_key1)) sample_world_after).2
    = sample_world_after.
Proof.
  split; [reflexivity|].
  exact (readers_leave_world cache_obj (PStr (lit sample_key1))
           sample_world_after eq_refl).
Defined.

(** The counter key holds the text "many": [store] raises and the world
    is as before, with and without a keyword named [self]. *)
Lemma store_blocked_by_counter_witness :
  (Redis.counter counter_key (db sample_world_stuck) = None
   ∨ Redis.counter counter_key (db sample_world_stuck)
     = Some Redis.int64_max)
  ∧ (∃ e, call Cache.store cache_obj [PInt 1] [] sample_world_stuck
          = (Raise e, sample_world_stuck)
          ∧ (keyword_self [] = true → e = TypeError)
          ∧ (keyword_self [] = false → ∃ r, e = ResponseError r))
  ∧ (∃ e, call Cache.store cache_obj [PInt 1] self_keyword sample_world_stuck
          = (Raise e, sample_world_stuck)
          ∧ (keyword_self self_keyword = true → e = TypeError)
          ∧ (keyword_self self_keyword = false → ∃ r, e = ResponseError r)).
Proof.
  split; [left; reflexivity|]. split.
  - exact (store_blocked_by_counter [PInt 1] [] sample_world_stuck
             (or_introl eq_refl)).
  - exact (store_blocked_by_counter [PInt 1] self_keyword sample_world_stuck
             (or_introl eq_refl)).
Defined.


(** A method that returns [None]: its call is logged in the inputs only
    and the caller gets [DataError]. *)
Lemma history_half_recorded_witness :
  is_Cache cache_obj = true
  ∧ redis_attr cache_obj = Some RedisClient
  ∧ call returns_None cache_obj [] [] sample_world = (Ok PNone, sample_world)
  ∧ encode PNone = Raise DataError
  ∧ call (call_history returns_None) cache_obj [] [] sample_world
    = (Raise DataError,
       set_db (<["f:inputs" := Redis.List ([] ++ ["()"])]> (db sample_world))
              sample_world).
Proof.
  split; [reflexivity|]. split; [reflexivity|]. split; [reflexivity|].
  split; [reflexivity|].
  exact (history_half_recorded returns_None cache_obj [] [] sample_world
           PNone sample_world DataError "f:inputs" "()" []
           eq_refl eq_refl eq_refl eq_refl eq_refl eq_refl eq_refl).
Defined.

(** [store(None)] on an empty database. *)
Lemma store_rejects_unencodable_witness :
  encode PNone = Raise DataError
  ∧ Redis.counter counter_key (db sample_world) = Some 0%Z
  ∧ (0 < Redis.int64_max)%Z
  ∧ (DataError = DataError ∨ DataError = UnicodeEncodeError)
  ∧ call Cache.store cache_obj [PNone] [] sample_world
    = (Raise DataError,
       set_db (counted 0 (db sample_world)) (drew sample_world)).
Proof.
  split; [reflexivity|]. split; [reflexivity|]. split; [reflexivity|].
  exact (store_rejects_unencodable PNone DataError sample_world 0
           eq_refl eq_refl eq_refl).
Defined.

(** [store()] on an empty database is counted, [store(1, self=2)] is
    not. *)
Lemma store_bad_arguments_witness :
  Redis.counter counter_key (db sample_world) = Some 0%Z
  ∧ (0 < Redis.int64_max)%Z
  ∧ (Cache.bind_data [] [] = Raise TypeError
     ∧ TypeError = TypeError
     ∧ call Cache.store cache_obj [] [] sample_world
       = (Raise TypeError,
          if keyword_self [] then sample_world
          else set_db (counted 0 (db sample_world)) sample_world))
  ∧ (Cache.bind_data [PInt 1] self_keyword = Raise TypeError
     ∧ TypeError = TypeError
     ∧ call Cache.store cache_obj [PInt 1] self_keyword sample_world
       = (Raise TypeError,
          if keyword_self self_keyword then sample_world
          else set_db (counted 0 (db sample_world)) sample_world)).
Proof.
  split; [reflexivity|]. split; [reflexivity|]. split.
  - split; [reflexivity|].
    exact (store_bad_arguments [] [] sample_world 0 TypeError
             eq_refl eq_refl eq_refl).
  - split; [reflexivity|].
    exact (store_bad_arguments [PInt 1] self_keyword sample_world 0 TypeError
             eq_refl eq_refl eq_refl).
Defined.


(** A [Cache] that lost its [_redis] attribute. *)
Lemma store_without_client_witness :
  redis_attr cache_without_handle = None
  ∧ ∃ e w', call Cache.store cache_without_handle [PInt 1] [] sample_world
            = (Raise e, w')
            ∧ db w' = db sample_world ∧ stdout w' = stdout sample_world
            ∧ (is_Cache cache_without_handle = true →
               w' = sample_world
               ∧ e = if keyword_self [] then TypeError else AttributeError).
Proof.
  split; [reflexivity|].
  exact (store_without_client cache_without_handle [PInt 1] [] sample_world
           eq_refl).
Defined.


(** The report after the two calls of the scenario. *)
Lemma replay_after_stores_witness :
  Cache.__init__ sample_world = (Ok cache_obj, sample_world)
  ∧ run_calls Cache.store cache_obj sample_calls sample_world
    = (Ok [PStr (lit sample_key1); PStr (lit sample_key2)], sample_world_after)
  ∧ replay Cache.store sample_world_after =
    (Ok tt,
     World (db sample_world_after)
       (stdout sample_world_after
        ++ replay_header (lit "Cache.store") (length sample_calls)
           :: zip_with (λ c key, call_line (lit "Cache.store") c.1 key)
                sample_calls [PStr (lit sample_key1); PStr (lit sample_key2)])
       (entropy sample_world_after) (drawn sample_world_after)).
Proof.
  assert (Cache.__init__ sample_world = (Ok cache_obj, sample_world)) as Hinit
    by reflexivity.
  assert (run_calls Cache.store cache_obj sample_calls sample_world
          = (Ok [PStr (lit sample_key1); PStr (lit sample_key2)],
             sample_world_after)) as Hrun
    by reflexivity.
  split; [exact Hinit|]. split; [exact Hrun|].
  exact (replay_after_stores sample_world cache_obj sample_world sample_calls
           _ sample_world_after Hinit Hrun).
Defined.

(** The key of [store("foo")] in the sample world. *)
Lemma store_returns_uuid4_witness :
  call Cache.store cache_obj [PStr (lit "foo")] [] sample_world
    = (Ok (PStr (lit sample_key1)), sample_world_first)
  ∧ ∃ s, PStr (lit sample_key1) = PStr s ∧ is_uuid4_text s
         ∧ length s = 36%nat.
Proof.
  assert (call Cache.store cache_obj [PStr (lit "foo")] [] sample_world
          = (Ok (PStr (lit sample_key1)), sample_world_first)) as Hcall
    by reflexivity.
  split; [exact Hcall|].
  exact (store_returns_uuid4 cache_obj [PStr (lit "foo")] [] sample_world
           _ _ Hcall).
Defined.

(** The four attempts: the counter reads 3, the call with the keyword
    [self] is left out, and each log has the one entry of the call that
    returned. *)
Lemma store_attempts_counted_witness :
  Cache.__init__ sample_world = (Ok cache_obj, sample_world)
  ∧ (Z.of_nat (length sample_attempts) ≤ Redis.int64_max)%Z
  ∧ run_attempts Cache.store cache_obj sample_attempts sample_world
    = (sample_outcomes, sample_world_attempts)
  ∧ length (bound_calls sample_attempts) = 3%nat
  ∧ ∃ ins outs,
    Redis.counter counter_key (db sample_world_attempts)
      = Some (Z.of_nat (length (bound_calls sample_attempts)))
    ∧ Redis.elements inputs_key (db sample_world_attempts) = Some ins
    ∧ Redis.elements outputs_key (db sample_world_attempts) = Some outs
    ∧ length sample_outcomes = length sample_attempts
    ∧ length ins = length (List.filter is_Ok sample_outcomes)
    ∧ Forall2 (λ r o, ∃ s, r = Ok (PStr s) ∧ utf8_encode s = Some o)
        (List.filter is_Ok sample_outcomes) outs.
Proof.
  assert (Cache.__init__ sample_world = (Ok cache_obj, sample_world)) as Hinit
    by reflexivity.
  assert (Z.of_nat (length sample_attempts) ≤ Redis.int64_max)%Z as Hmax
    by (intros Hgt; discriminate Hgt).
  assert (run_attempts Cache.store cache_obj sample_attempts sample_world
          = (sample_outcomes, sample_world_attempts)) as Hrun
    by reflexivity.
  split; [exact Hinit|]. split; [exact Hmax|]. split; [exact Hrun|].
  split; [reflexivity|].
  exact (store_attempts_counted sample_world cache_obj sample_world
           sample_attempts _ sample_world_attempts Hinit Hmax Hrun).
Defined.


(** [store("foo")] in the sample world: every other key stays. *)
Lemma store_writes_four_keys_witness :
  utf8_encode (next_key sample_world) = Some sample_key1
  ∧ call Cache.store cache_obj [PStr (lit "foo")] [] sample_world
    = (Ok (PStr (lit sample_key1)), sample_world_first)
  ∧ stdout sample_world_first = stdout sample_world
  ∧ entropy sample_world_first = entropy sample_world
  ∧ (drawn sample_world_first = drawn sample_world
     ∨ drawn sample_world_first = S (drawn sample_world))
  ∧ ∀ k, k ≠ counter_key → k ≠ inputs_key → k ≠ outputs_key →
         k ≠ sample_key1 →
         db sample_world_first !! k = db sample_world !! k.
Proof.
  assert (utf8_encode (next_key sample_world) = Some sample_key1) as Hkb
    by reflexivity.
  assert (call Cache.store cache_obj [PStr (lit "foo")] [] sample_world
          = (Ok (PStr (lit sample_key1)), sample_world_first)) as Hcall
    by reflexivity.
  split; [exact Hkb|]. split; [exact Hcall|].
  exact (store_writes_four_keys [PStr (lit "foo")] [] sample_world _ _
           sample_key1 Hkb Hcall).
Defined.

(** After the two calls of the scenario both keys read back. *)
Lemma stored_values_readable_witness :
  run_calls Cache.store cache_obj sample_calls sample_world
    = (Ok [PStr (lit sample_key1); PStr (lit sample_key2)], sample_world_after)
  ∧ NoDup [PStr (lit sample_key1); PStr (lit sample_key2)]
  ∧ ∀ i args kw key,
      sample_calls !! i = Some (args, kw) →
      [PStr (lit sample_key1); PStr (lit sample_key2)] !! i = Some key →
      ∃ data vb,
        Cache.bind_data args kw = Ok data ∧ encode data = Ok vb
        ∧ Cache.get cache_obj key None sample_world_after
          = (Ok (PBytes vb), sample_world_after).
Proof.
  assert (run_calls Cache.store cache_obj sample_calls sample_world
          = (Ok [PStr (lit sample_key1); PStr (lit sample_key2)],
             sample_world_after)) as Hrun
    by reflexivity.
  assert (NoDup [PStr (lit sample_key1); PStr (lit sample_key2)]) as Hnodup.
  { apply NoDup_cons. split; [|apply NoDup_singleton].
    intros Hin. apply list_elem_of_singleton in Hin.
    injection Hin as Hin. discriminate Hin. }
  split; [exact Hrun|]. split; [exact Hnodup|].
  exact (stored_values_readable sample_calls sample_world _ sample_world_after
           Hrun Hnodup).
Defined.

(** [get_str(store(42))] is the text "42". *)
Lemma get_returns_encoding_witness :
  instrumentable (db sample_world)
  ∧ encode (PInt 42) = Ok "42"
  ∧ ∃ key w',
    call Cache.store cache_obj [PInt 42] [] sample_world = (Ok key, w')
    ∧ Cache.get cache_obj key None w' = (Ok (PBytes "42"), w')
    ∧ (∀ fn, Cache.get cache_obj key (Some fn) w' = fn (PBytes "42") w')
    ∧ Cache.get_str cache_obj key w'
      = (PStr <$> of_option UnicodeDecodeError (utf8_decode "42"), w')
    ∧ (∀ z, PInt 42 = PInt z →
         Cache.get_str cache_obj key w' = (Ok (PStr (lit (Z_to_dec z))), w')).
Proof.
  split; [exact sample_world_instrumentable|]. split; [reflexivity|].
  exact (get_returns_encoding sample_world (PInt 42) "42"
           sample_world_instrumentable eq_refl).
Defined.

(** After the two calls of the scenario the count reads 2. *)
Lemma call_count_readable_witness :
  Cache.__init__ sample_world = (Ok cache_obj, sample_world)
  ∧ run_calls Cache.store cache_obj sample_calls sample_world
    = (Ok [PStr (lit sample_key1); PStr (lit sample_key2)], sample_world_after)
  ∧ sample_calls ≠ []
  ∧ Cache.get cache_obj (PStr (qualname Cache.store)) None sample_world_after
    = (Ok (PBytes (Z_to_dec (Z.of_nat (length sample_calls)))),
       sample_world_after)
  ∧ Cache.get_int cache_obj (PStr (qualname Cache.store)) sample_world_after
    = (Ok (PInt (Z.of_nat (length sample_calls))), sample_world_after)
  ∧ Cache.get cache_obj (PStr (qualname Cache.store ++ lit ":inputs")) None
      sample_world_after
    = (Raise (ResponseError WrongType), sample_world_after)
  ∧ Cache.get cache_obj (PStr (qualname Cache.store ++ lit ":outputs")) None
      sample_world_after
    = (Raise (ResponseError WrongType), sample_world_after).
Proof.
  assert (Cache.__init__ sample_world = (Ok cache_obj, sample_world)) as Hinit
    by reflexivity.
  assert (run_calls Cache.store cache_obj sample_calls sample_world
          = (Ok [PStr (lit sample_key1); PStr (lit sample_key2)],
             sample_world_after)) as Hrun
    by reflexivity.
  assert (sample_calls ≠ []) as Hne by discriminate.
  split; [exact Hinit|]. split; [exact Hrun|]. split; [exact Hne|].
  exact (call_count_readable sample_world cache_obj sample_world sample_calls
           _ sample_world_after Hinit Hrun Hne).
Defined.

(** [replay] of a method that was never called prints its header, and
    prints it again when it is run again. *)
Lemma replay_repeatable_witness :
  replay returns_None sample_world
    = (Ok tt, World ∅ [lit "f was called 0 times:"] (entropy sample_world) 0)
  ∧ ∃ lines,
    World ∅ [lit "f was called 0 times:"] (entropy sample_world) 0
    = World (db sample_world) (stdout sample_world ++ lines)
            (entropy sample_world) (drawn sample_world)
    ∧ replay returns_None
        (World ∅ [lit "f was called 0 times:"] (entropy sample_world) 0)
      = (Ok tt,
         World (db sample_world) (stdout sample_world ++ lines ++ lines)
               (entropy sample_world) (drawn sample_world)).
Proof.
  assert (replay returns_None sample_world
          = (Ok tt, World ∅ [lit "f was called 0 times:"]
                          (entropy sample_world) 0)) as Hrun
    by reflexivity.
  split; [exact Hrun|].
  exact (replay_repeatable returns_None sample_world _ _ Hrun).
Defined.

(** The inputs key of [store] holds a plain string. *)
Lemma replay_wrong_type_witness :
  utf8_encode (qualname Cache.store ++ lit ":inputs") = Some inputs_key
  ∧ utf8_encode (qualname Cache.store ++ lit ":outputs") = Some outputs_key
  ∧ (Redis.elements inputs_key (db sample_world_clash) = None
     ∨ Redis.elements outputs_key (db sample_world_clash) = None)
  ∧ replay Cache.store sample_world_clash
    = (Raise (ResponseError WrongType), sample_world_clash).
Proof.
  split; [reflexivity|]. split; [reflexivity|]. split; [left; reflexivity|].
  exact (replay_wrong_type Cache.store sample_world_clash inputs_key
           outputs_key eq_refl eq_refl (or_introl eq_refl)).
Defined.

(** One recorded call whose output is the byte 0xFF: the header is
    printed, the line is not. *)
Lemma replay_stops_at_bad_entry_witness :
  utf8_encode (qualname returns_byte ++ lit ":inputs") = Some "g:inputs"
  ∧ utf8_encode (qualname returns_byte ++ lit ":outputs") = Some "g:outputs"
  ∧ Redis.elements "g:inputs" (db sample_world_bad) = Some ["()"]
  ∧ Redis.elements "g:outputs" (db sample_world_bad)
    = Some [String "255"%char ""]
  ∧ zip ["()"] [String "255"%char ""]
    = [] ++ ("()", String "255"%char "") :: []
  ∧ mapM (replay_line (qualname returns_byte)) [] = Some []
  ∧ replay_line (qualname returns_byte) ("()", String "255"%char "") = None
  ∧ replay returns_byte sample_world_bad =
    (Raise UnicodeDecodeError,
     World (db sample_world_bad)
           (stdout sample_world_bad
            ++ replay_header (qualname returns_byte) (length ["()"]) :: [])
           (entropy sample_world_bad) (drawn sample_world_bad)).
Proof.
  split; [reflexivity|]. split; [reflexivity|]. split; [reflexivity|].
  split; [reflexivity|]. split; [reflexivity|]. split; [reflexivity|].
  split; [reflexivity|].
  exact (replay_stops_at_bad_entry returns_byte sample_world_bad
           "g:inputs" "g:outputs" ["()"] [String "255"%char ""]
           [] ("()", String "255"%char "") [] []
           eq_refl eq_refl eq_refl eq_refl eq_refl eq_refl eq_refl).
Defined.

(** The first key of the scenario, and a key that was never stored. *)
Lemma typed_readers_and_decoders_witness :
  redis_attr cache_obj = Some RedisClient
  ∧ encode (PStr (lit "missing")) = Ok "missing"
  ∧ db sample_world_after !! "missing" = None
  ∧ Cache.get_int cache_obj (PStr (lit "missing")) sample_world_after
    = (Ok PNone, sample_world_after)
  ∧ Cache.get cache_obj (PStr (lit "missing")) (Some (λ d, lift (py_int d)))
      sample_world_after
    = (Raise TypeError, sample_world_after)
  ∧ Cache.get_str cache_obj (PStr (lit "missing")) sample_world_after
    = (Ok PNone, sample_world_after)
  ∧ Cache.get cache_obj (PStr (lit "missing"))
      (Some (λ d, lift (py_decode_utf8 d))) sample_world_after
    = (Raise AttributeError, sample_world_after).
Proof.
  split; [reflexivity|]. split; [reflexivity|]. split; [reflexivity|].
  exact (proj2 (typed_readers_and_decoders cache_obj (PStr (lit "missing"))
                  "missing" sample_world_after eq_refl eq_refl)
           eq_refl).
Defined.

(** After the four attempts the counter reads 3 and the report says
    that [store] was called 1 times. *)
Lemma replay_reports_returned_calls_witness :
  Cache.__init__ sample_world = (Ok cache_obj, sample_world)
  ∧ (Z.of_nat (length sample_attempts) ≤ Redis.int64_max)%Z
  ∧ run_attempts Cache.store cache_obj sample_attempts sample_world
    = (sample_outcomes, sample_world_attempts)
  ∧ Redis.counter counter_key (db sample_world_attempts)
    = Some (Z.of_nat (length (bound_calls sample_attempts)))
  ∧ ∃ lines,
      replay Cache.store sample_world_attempts =
        (Ok tt,
         World (db sample_world_attempts)
           (stdout sample_world_attempts
            ++ replay_header (lit "Cache.store")
                 (length (List.filter is_Ok sample_outcomes)) :: lines)
           (entropy sample_world_attempts) (drawn sample_world_attempts))
      ∧ length lines = length (List.filter is_Ok sample_outcomes).
Proof.
  assert (Cache.__init__ sample_world = (Ok cache_obj, sample_world)) as Hinit
    by reflexivity.
  assert (Z.of_nat (length sample_attempts) ≤ Redis.int64_max)%Z as Hmax
    by (intros Hgt; discriminate Hgt).
  assert (run_attempts Cache.store cache_obj sample_attempts sample_world
          = (sample_outcomes, sample_world_attempts)) as Hrun
    by reflexivity.
  split; [exact Hinit|]. split; [exact Hmax|]. split; [exact Hrun|].
  exact (replay_reports_returned_calls sample_world cache_obj sample_world
           sample_attempts _ sample_world_attempts Hinit Hmax Hrun).
Defined.

